(** * tvm-explore: the notebooks' own logic, embedded and verified

    The repository is a set of tutorial notebooks over the TVM Python
    front-end.  The code that belongs to the notebooks themselves is small:
    a download helper ([extract]), two intrinsic lowering rules
    ([my_cuda_math_rule], [my_cuda_mylog_rule]), a layout-alteration hook
    ([alter_conv2d]), a registered callback ([my_tvm_addone]), the
    declaration, schedule and check of the TensorCore matrix product
    ([matmul_nn], [test_gemm], [tune_and_evaluate]) and the loop nests
    and kernels the notebooks print.  Each is embedded below next to the
    statements proved about it. *)

From Stdlib Require Import ZArith Lia.
From stdpp Require Import base option list strings gmap.

Set Warnings "-register-all".

Open Scope string_scope.
Open Scope nat_scope.

(** ** Outcomes of Python code: a value, or a raised exception *)

Inductive result (E A : Type) : Type :=
| Ok (a : A)
| Raise (e : E).
Arguments Ok {E A} a.
Arguments Raise {E A} e.

#[global] Instance result_ret {E} : MRet (result E) := λ A a, Ok a.
#[global] Instance result_bind {E} : MBind (result E) :=
  λ A B k m, match m with Ok a => k a | Raise e => Raise e end.

Lemma bind_Ok {E A B : Type} (a : A) (k : A → result E B) :
  (Ok a ≫= k) = k a.
Proof. reflexivity. Qed.

Lemma bind_Raise {E A B : Type} (e : E) (k : A → result E B) :
  (Raise e ≫= k) = Raise e.
Proof. reflexivity. Qed.

(** ** Python strings *)

Module PyStr.

(** [s.endswith(suffix)]: the last [len(suffix)] characters of [s] are
    compared with [suffix]; a suffix longer than [s] never matches. *)
Definition endswith (s suffix : string) : bool :=
  let n := String.length s in
  let k := String.length suffix in
  if Nat.leb k n then String.eqb (String.substring (n - k) k s) suffix else false.

Lemma length_app (p q : string) :
  String.length (p +:+ q) = String.length p + String.length q.
Proof. induction p as [|c p IH]; simpl; [done | by rewrite IH]. Qed.

Lemma substring_all (s : string) : String.substring 0 (String.length s) s = s.
Proof. induction s as [|c s IH]; simpl; [done | by rewrite IH]. Qed.

Lemma substring_skip (p q : string) (k : nat) :
  String.substring (String.length p) k (p +:+ q) = String.substring 0 k q.
Proof. induction p as [|c p IH]; simpl; [done | exact IH]. Qed.

Lemma substring_split (s : string) (i : nat) :
  i ≤ String.length s →
  s = String.substring 0 i s +:+ String.substring i (String.length s - i) s.
Proof.
  revert i. induction s as [|c s IH]; intros i Hi; simpl in *.
  - assert (i = 0) as -> by lia. done.
  - destruct i as [|i]; simpl.
    + by rewrite substring_all.
    + (* the head character is kept, the tail splits at [i] *)
      change (String c s = String c (String.substring 0 i s +:+
                String.substring i (String.length s - i) s)).
      f_equal. apply IH. lia.
Qed.

(** [endswith] holds exactly of the strings that are built by appending
    the suffix to something. *)
Lemma endswith_spec (s suffix : string) :
  endswith s suffix = true ↔ ∃ p, s = p +:+ suffix.
Proof.
  unfold endswith. split.
  - destruct (Nat.leb_spec (String.length suffix) (String.length s)) as [Hle|Hlt];
      [|done].
    intros Heq%String.eqb_eq.
    exists (String.substring 0 (String.length s - String.length suffix) s).
    pose proof (substring_split s (String.length s - String.length suffix))
      as Hsplit.
    replace (String.length s - (String.length s - String.length suffix))
      with (String.length suffix) in Hsplit by lia.
    rewrite Heq in Hsplit. apply Hsplit. lia.
  - intros [p ->]. rewrite length_app.
    destruct (Nat.leb_spec (String.length suffix)
                (String.length p + String.length suffix)) as [_|Hlt]; [|lia].
    replace (String.length p + String.length suffix - String.length suffix)
      with (String.length p) by lia.
    rewrite substring_skip, substring_all. apply String.eqb_refl.
Qed.

Lemma app_assoc (p q r : string) : (p +:+ q) +:+ r = p +:+ (q +:+ r).
Proof.
  induction p as [|c p IH]; [reflexivity|].
  change (String c ((p +:+ q) +:+ r) = String c (p +:+ (q +:+ r))).
  by rewrite IH.
Qed.

(** A suffix of a suffix is a suffix. *)
Lemma endswith_trans (s mid suffix : string) :
  endswith mid suffix = true → endswith s mid = true → endswith s suffix = true.
Proof.
  rewrite !endswith_spec. intros [q ->] [p ->].
  exists (p +:+ q). by rewrite app_assoc.
Qed.

End PyStr.

(** ** The archive helper of the TFLite notebook *)

Module Tflite.
Import PyStr.

Section Extract.
(** The file system and the [tarfile] library are outside the notebook:
    they are taken as they come.  [TarError] stands for what the library
    raises itself ([tarfile.TarError], [OSError]). *)
Context {FS TarFile TarError : Type}.
Variable dirname : string → string.
Variable tarfile_open : string → FS → result TarError TarFile.
Variable extractall : TarFile → string → FS → result TarError FS.
Variable close : TarFile → FS → result TarError FS.

Inductive exn : Type :=
| RuntimeError (msg : string)
| TarfileRaised (e : TarError).

(** The three library calls of the first branch, in order. *)
Definition untar (path dir_path : string) (fs : FS) : result exn FS :=
  match tarfile_open path fs with
  | Raise e => Raise (TarfileRaised e)
  | Ok tar =>
      match extractall tar dir_path fs with
      | Raise e => Raise (TarfileRaised e)
      | Ok fs1 =>
          match close tar fs1 with
          | Raise e => Raise (TarfileRaised e)
          | Ok fs2 => Ok fs2
          end
      end
  end.

Definition extract (path : string) (fs : FS) : result exn FS :=
  if endswith path "tgz" || endswith path "gz" then
    let dir_path := dirname path in
    untar path dir_path fs
  else
    Raise (RuntimeError ("Could not decompress the file: " +:+ path)).



Lemma tgz_endswith_gz path :
  endswith path "tgz" = true → endswith path "gz" = true.
Proof. apply endswith_trans. reflexivity. Qed.

Lemma suffix_test_collapses path :
  endswith path "tgz" || endswith path "gz" = endswith path "gz".
Proof.
  destruct (endswith path "tgz") eqn:Htgz; [|done].
  by rewrite (tgz_endswith_gz path Htgz).
Qed.


(** X1: when [extract] returns, the archive at [path] was opened,
    extracted into the directory of [path] and closed, each call
    succeeding on the file system the one before left; and [path] ends
    with "gz". *)
Theorem extract_success (path : string) (fs fs' : FS) :
  extract path fs = Ok fs' →
  endswith path "gz" = true
  ∧ ∃ tar fs1, tarfile_open path fs = Ok tar
               ∧ extractall tar (dirname path) fs = Ok fs1
               ∧ close tar fs1 = Ok fs'.
Proof.
  unfold extract. rewrite suffix_test_collapses.
  destruct (endswith path "gz"); [|done]. unfold untar.
  destruct (tarfile_open path fs) as [tar|e] eqn:Hopen; [|done].
  destruct (extractall tar (dirname path) fs) as [fs1|e] eqn:Hall; [|done].
  destruct (close tar fs1) as [fs2|e] eqn:Hclose; [|done].
  intros [= <-]. split; [done|]. by exists tar, fs1.
Qed.
End Extract.

Example extract_model_tgz :
  endswith "mobilenet_v1_1.0_224.tgz" "gz" = true.
Proof. reflexivity. Qed.

(** A small file system, as the list of its paths: every archive holds
    one file, which is unpacked into the directory given. *)
Definition toy_dirname (p : string) : string := "models".
Definition toy_open (p : string) (fs : list string) : result unit string :=
  Ok p.
Definition toy_extractall (tar dir : string) (fs : list string)
    : result unit (list string) :=
  Ok ((dir +:+ "/model.tflite") :: fs).
Definition toy_close (tar : string) (fs : list string)
    : result unit (list string) :=
  Ok fs.

Lemma extract_success_witness :
  extract toy_dirname toy_open toy_extractall toy_close
    "models/model.tgz" ["models/model.tgz"]
  = Ok ["models/model.tflite"; "models/model.tgz"]
  ∧ endswith "models/model.tgz" "gz" = true
  ∧ ∃ tar fs1,
      toy_open "models/model.tgz" ["models/model.tgz"] = Ok tar
      ∧ toy_extractall tar (toy_dirname "models/model.tgz")
          ["models/model.tgz"] = Ok fs1
      ∧ toy_close tar fs1 = Ok ["models/model.tflite"; "models/model.tgz"].
Proof.
  split; [reflexivity|].
  apply (extract_success toy_dirname toy_open toy_extractall toy_close
           "models/model.tgz" ["models/model.tgz"]).
  reflexivity.
Defined.

Example extract_zip_rejected :
  extract (FS:=unit) (TarFile:=unit) (TarError:=unit)
    (λ p, p) (λ _ _, Ok ()) (λ _ _ fs, Ok fs) (λ _ fs, Ok fs)
    "model.zip" ()
  = Raise (RuntimeError "Could not decompress the file: model.zip").
Proof. reflexivity. Qed.

End Tflite.

(** ** The intrinsic lowering rules of the intrinsics notebook *)

Module Intrin.

(** [tvm.expr.Call.call_type]. *)
Inductive CallType : Type :=
| Extern | ExternCPlusPlus | PureExtern | Halide | Intrinsic | PureIntrinsic.

(** The expressions the rules can be handed: every node carries a dtype,
    only a [Call] has a name and arguments. *)
Inductive Expr : Type :=
| Var (name dtype : string)
| IntImm (dtype : string) (value : Z)
| Call (dtype name : string) (args : list Expr) (call_type : CallType).

Inductive exn : Type :=
| AssertionError
| AttributeError (attr : string)
| IndexError
| TVMError (msg : string).

Definition dtype (op : Expr) : string :=
  match op with
  | Var _ t => t
  | IntImm t _ => t
  | Call t _ _ _ => t
  end.

(** [op.name] and [op.args]: attributes of [Call] only. *)
Definition call_name (op : Expr) : result exn string :=
  match op with
  | Call _ n _ _ => Ok n
  | _ => Raise (AttributeError "name")
  end.

Definition args (op : Expr) : result exn (list Expr) :=
  match op with
  | Call _ _ a _ => Ok a
  | _ => Raise (AttributeError "args")
  end.

(** [a[0]] on the argument array. *)
Definition getitem0 (a : list Expr) : result exn Expr :=
  match a with
  | x :: _ => Ok x
  | [] => Raise IndexError
  end.

Definition isinstance_Call (op : Expr) : bool :=
  match op with Call _ _ _ _ => true | _ => false end.

(** [tvm.call_pure_extern(dtype, func_name, *args)]. *)
Definition call_pure_extern (t func_name : string) (a : list Expr) : Expr :=
  Call t func_name a PureExtern.

(** [tvm.call_pure_intrin(dtype, func_name, *args)]. *)
Definition call_pure_intrin (t func_name : string) (a : list Expr) : Expr :=
  Call t func_name a PureIntrinsic.

Definition my_cuda_math_rule (op : Expr) : result exn Expr :=
  if negb (isinstance_Call op) then Raise AssertionError
  else if String.eqb (dtype op) "float32" then
    (* call float function *)
    n ← call_name op ;
    a ← args op ;
    a0 ← getitem0 a ;
    Ok (call_pure_extern "float32" (n +:+ "f") [a0])
  else if String.eqb (dtype op) "float64" then
    (* call double function *)
    n ← call_name op ;
    a ← args op ;
    a0 ← getitem0 a ;
    Ok (call_pure_extern "float32" n [a0])
  else
    (* cannot do translation, return self. *)
    Ok op.

Definition mylog (x : Expr) : Expr :=
  call_pure_intrin (dtype x) "mylog" [x].

Definition my_cuda_mylog_rule (op : Expr) : result exn Expr :=
  if String.eqb (dtype op) "float32" then
    a ← args op ;
    a0 ← getitem0 a ;
    Ok (call_pure_extern "float32" "logf" [a0])
  else if String.eqb (dtype op) "float64" then
    a ← args op ;
    a0 ← getitem0 a ;
    Ok (call_pure_extern "float64" "log" [a0])
  else
    Ok op.

(** The global rule table [tvm.register_intrin_rule] writes into: the rule
    for intrinsic [intrin] on [target] is stored under
    "tvm.intrin.rule.<target>.<intrin>". *)
Definition rule : Type := Expr → result exn Expr.

Definition rule_key (target intrin : string) : string :=
  "tvm.intrin.rule." +:+ target +:+ "." +:+ intrin.

Definition register_intrin_rule (target intrin : string) (f : rule)
    (override : bool) (reg : gmap string rule) : result exn (gmap string rule) :=
  match reg !! rule_key target intrin with
  | Some _ =>
      if override then Ok (<[rule_key target intrin := f]> reg)
      else Raise (TVMError ("Global PackedFunc " +:+ rule_key target intrin
                            +:+ " is already registered"))
  | None => Ok (<[rule_key target intrin := f]> reg)
  end.

(** The two registrations of the notebook, in order. *)
Definition notebook_rules (reg : gmap string rule) : result exn (gmap string rule) :=
  reg1 ← register_intrin_rule "cuda" "exp" my_cuda_math_rule true reg ;
  register_intrin_rule "cuda" "mylog" my_cuda_mylog_rule true reg1.

(** What a registered rule does to a call on its target; a call without a
    rule is left alone. *)
Definition apply_rule (reg : gmap string rule) (target : string) (op : Expr)
    : result exn Expr :=
  match op with
  | Call _ n _ _ =>
      match reg !! rule_key target n with
      | Some f => f op
      | None => Ok op
      end
  | _ => Ok op
  end.

Example math_rule_float32 :
  my_cuda_math_rule (Call "float32" "exp" [Var "x" "float32"] PureIntrinsic)
  = Ok (Call "float32" "expf" [Var "x" "float32"] PureExtern).
Proof. reflexivity. Qed.

Example math_rule_float64 :
  my_cuda_math_rule (Call "float64" "exp" [Var "x" "float64"] PureIntrinsic)
  = Ok (Call "float32" "exp" [Var "x" "float64"] PureExtern).
Proof. reflexivity. Qed.

Example mylog_rule_float64 :
  my_cuda_mylog_rule (mylog (Var "x" "float64"))
  = Ok (Call "float64" "log" [Var "x" "float64"] PureExtern).
Proof. reflexivity. Qed.

Example math_rule_not_a_call :
  my_cuda_math_rule (Var "x" "int32") = Raise AssertionError.
Proof. reflexivity. Qed.

Lemma eqb_neq (s t : string) : s ≠ t → String.eqb s t = false.
Proof. intros H. by apply String.eqb_neq. Qed.

Lemma math_rule_falls_through (op : Expr) :
  isinstance_Call op = true →
  dtype op ≠ "float32" → dtype op ≠ "float64" →
  my_cuda_math_rule op = Ok op.
Proof.
  intros Hcall H32 H64. unfold my_cuda_math_rule.
  by rewrite Hcall, (eqb_neq _ _ H32), (eqb_neq _ _ H64).
Qed.

Lemma mylog_rule_falls_through (op : Expr) :
  dtype op ≠ "float32" → dtype op ≠ "float64" →
  my_cuda_mylog_rule op = Ok op.
Proof.
  intros H32 H64. unfold my_cuda_mylog_rule.
  by rewrite (eqb_neq _ _ H32), (eqb_neq _ _ H64).
Qed.

(** C9: on a call whose dtype is neither "float32" nor "float64" both
    rules return the call itself. *)
Theorem rules_identity_on_other_dtypes
    (t n : string) (a : list Expr) (ct : CallType) :
  t ≠ "float32" → t ≠ "float64" →
  my_cuda_math_rule (Call t n a ct) = Ok (Call t n a ct)
  ∧ my_cuda_mylog_rule (Call t n a ct) = Ok (Call t n a ct).
Proof.
  intros H32 H64. split.
  - by apply math_rule_falls_through.
  - by apply mylog_rule_falls_through.
Qed.

Lemma rules_identity_on_other_dtypes_witness :
  "int32" ≠ "float32" ∧ "int32" ≠ "float64"
  ∧ my_cuda_math_rule (Call "int32" "exp" [Var "x" "int32"] PureIntrinsic)
    = Ok (Call "int32" "exp" [Var "x" "int32"] PureIntrinsic)
  ∧ my_cuda_mylog_rule (Call "int32" "exp" [Var "x" "int32"] PureIntrinsic)
    = Ok (Call "int32" "exp" [Var "x" "int32"] PureIntrinsic).
Proof.
  split; [discriminate|]. split; [discriminate|].
  apply (rules_identity_on_other_dtypes
           "int32" "exp" [Var "x" "int32"] PureIntrinsic); discriminate.
Defined.

Lemma register_override (target intrin : string) (f : rule)
    (reg : gmap string rule) :
  register_intrin_rule target intrin f true reg
  = Ok (<[rule_key target intrin := f]> reg).
Proof. unfold register_intrin_rule. by destruct (reg !! _). Qed.

(** Once registered, the rules leave such a call as it is, whichever of
    the two intrinsics it names. *)
Lemma registered_rules_keep_call (reg reg' : gmap string rule)
    (t n : string) (a : list Expr) (ct : CallType) :
  notebook_rules reg = Ok reg' →
  t ≠ "float32" → t ≠ "float64" →
  n = "exp" ∨ n = "mylog" →
  apply_rule reg' "cuda" (Call t n a ct) = Ok (Call t n a ct).
Proof.
  intros Hreg H32 H64 Hn.
  pose proof (math_rule_falls_through (Call t n a ct) eq_refl H32 H64) as Hm.
  pose proof (mylog_rule_falls_through (Call t n a ct) H32 H64) as Hl.
  assert (reg' = <[rule_key "cuda" "mylog" := my_cuda_mylog_rule]>
                   (<[rule_key "cuda" "exp" := my_cuda_math_rule]> reg))
    as ->.
  { unfold notebook_rules in Hreg.
    rewrite register_override in Hreg. cbn [mbind result_bind] in Hreg.
    rewrite register_override in Hreg. by injection Hreg. }
  unfold apply_rule. destruct Hn as [-> | ->].
  - rewrite lookup_insert_ne by (vm_compute; discriminate).
    by rewrite lookup_insert_eq.
  - by rewrite lookup_insert_eq.
Qed.

(** *** How the two rules fail, and what they build *)

(** X2: [my_cuda_math_rule] fails in two ways only: with
    [AssertionError] on anything that is not a call, and with
    [IndexError] on a "float32" or "float64" call without arguments. *)
Theorem math_rule_failures (op : Expr) (e : exn) :
  my_cuda_math_rule op = Raise e ↔
    (isinstance_Call op = false ∧ e = AssertionError)
    ∨ (∃ n ct, (op = Call "float32" n [] ct ∨ op = Call "float64" n [] ct)
               ∧ e = IndexError).
Proof.
  destruct op as [x t|t z|t n a ct].
  - cbn. split.
    + intros [= <-]. by left.
    + intros [[_ ->]|(n & ct & [H|H] & _)]; done.
  - cbn. split.
    + intros [= <-]. by left.
    + intros [[_ ->]|(n & ct & [H|H] & _)]; done.
  - unfold my_cuda_math_rule. cbn [isinstance_Call negb dtype call_name args].
    rewrite !bind_Ok.
    destruct (String.eqb_spec t "float32") as [->|H32].
    { destruct a as [|a0 a]; cbn; split.
      - intros [= <-]. right. exists n, ct. split; [by left|done].
      - intros [[? _]|(? & ? & _ & ->)]; done.
      - done.
      - intros [[? _]|(? & ? & [H|H] & _)]; done. }
    destruct (String.eqb_spec t "float64") as [->|H64].
    { destruct a as [|a0 a]; cbn; split.
      - intros [= <-]. right. exists n, ct. split; [by right|done].
      - intros [[? _]|(? & ? & _ & ->)]; done.
      - done.
      - intros [[? _]|(? & ? & [H|H] & _)]; done. }
    split; [done|].
    intros [[? _]|(? & ? & [[= -> _ _ _]|[= -> _ _ _]] & _)]; done.
Qed.

(** X3: [my_cuda_mylog_rule] has no assertion: it fails only when the
    dtype is "float32" or "float64", with [AttributeError] on a node that
    has no [args] and with [IndexError] on a call without arguments. *)
Theorem mylog_rule_failures (op : Expr) (e : exn) :
  my_cuda_mylog_rule op = Raise e ↔
    (dtype op = "float32" ∨ dtype op = "float64")
    ∧ ((isinstance_Call op = false ∧ e = AttributeError "args")
       ∨ (∃ t n ct, op = Call t n [] ct ∧ e = IndexError)).
Proof.
  unfold my_cuda_mylog_rule.
  destruct (String.eqb_spec (dtype op) "float32") as [E32|H32].
  { destruct op as [x t|t z|t n [|a0 a] ct]; cbn in *; split;
      try (intros [= <-]); try done.
    - split; [by left|]. by left.
    - intros [_ [[_ ->]|(? & ? & ? & ? & _)]]; done.
    - split; [by left|]. by left.
    - intros [_ [[_ ->]|(? & ? & ? & ? & _)]]; done.
    - split; [by left|]. right. by exists t, n, ct.
    - intros [_ [[? _]|(? & ? & ? & _ & ->)]]; done.
    - intros [_ [[? _]|(? & ? & ? & ? & _)]]; done. }
  destruct (String.eqb_spec (dtype op) "float64") as [E64|H64].
  { destruct op as [x t|t z|t n [|a0 a] ct]; cbn in *; split;
      try (intros [= <-]); try done.
    - split; [by right|]. by left.
    - intros [_ [[_ ->]|(? & ? & ? & ? & _)]]; done.
    - split; [by right|]. by left.
    - intros [_ [[_ ->]|(? & ? & ? & ? & _)]]; done.
    - split; [by right|]. right. by exists t, n, ct.
    - intros [_ [[? _]|(? & ? & ? & _ & ->)]]; done.
    - intros [_ [[? _]|(? & ? & ? & ? & _)]]; done. }
  split; [done|]. intros [[?|?] _]; done.
Qed.

(** X4: the log rule keeps the dtype of what it lowers; the math rule
    keeps it too except on "float64", where the call it builds is typed
    "float32". *)
Theorem rules_result_dtype (op : Expr) :
  match my_cuda_mylog_rule op with
  | Ok r => dtype r = dtype op
  | Raise _ => True
  end
  ∧ match my_cuda_math_rule op with
    | Ok r => dtype r = if String.eqb (dtype op) "float64" then "float32"
                        else dtype op
    | Raise _ => True
    end.
Proof.
  split.
  - unfold my_cuda_mylog_rule.
    destruct (String.eqb_spec (dtype op) "float32") as [E32|H32].
    { destruct op as [x t|t z|t n [|a0 a] ct]; cbn in *; done. }
    destruct (String.eqb_spec (dtype op) "float64") as [E64|H64]; [|done].
    destruct op as [x t|t z|t n [|a0 a] ct]; cbn in *; done.
  - unfold my_cuda_math_rule.
    destruct op as [x t|t z|t n a ct]; cbn [isinstance_Call negb]; [done..|].
    cbn [dtype call_name args]. rewrite !bind_Ok.
    destruct (String.eqb_spec t "float32") as [->|H32].
    { destruct a as [|a0 a]; cbn; done. }
    destruct (String.eqb_spec t "float64") as [->|H64]; [|done].
    destruct a as [|a0 a]; cbn; done.
Qed.

(** X5: lowering [mylog(x)] never fails: for a "float32" or "float64"
    [x] it is the pure extern call of [logf] or [log] on [x] alone, typed
    as [x]; for any other [x] it is [mylog(x)] itself. *)
Theorem mylog_lowered (x : Expr) :
  my_cuda_mylog_rule (mylog x)
  = Ok (if String.eqb (dtype x) "float32" then Call (dtype x) "logf" [x] PureExtern
        else if String.eqb (dtype x) "float64" then Call (dtype x) "log" [x] PureExtern
        else Call (dtype x) "mylog" [x] PureIntrinsic).
Proof.
  unfold my_cuda_mylog_rule, mylog, call_pure_intrin, call_pure_extern.
  cbn [dtype args]. rewrite !bind_Ok. cbn [getitem0]. rewrite !bind_Ok.
  destruct (String.eqb_spec (dtype x) "float32") as [->|H32]; [done|].
  destruct (String.eqb_spec (dtype x) "float64") as [->|H64]; done.
Qed.


End Intrin.

(** ** The layout hook of the pass-infrastructure notebook *)

Module Relay.

(** Values an operator attribute can hold. *)
Inductive AttrVal : Type :=
| ANone
| AInt (n : Z)
| AStr (s : string)
| AInts (l : list Z).

Inductive exn : Type :=
| ValueError (msg : string)
| KeyError (key : string)
| TypeError (msg : string).

(** Python mappings live in a store and are reached by reference: the
    attribute node handed to the hook and the dictionary it builds are two
    objects of that store. *)
Abbreviation dict := (gmap string AttrVal).
Abbreviation store := (gmap nat dict).

Section AlterConv2d.
(** Relay expressions and type information are opaque to the hook, and
    [relay.nn.conv2d] belongs to the framework: it is handed the two
    inputs and the keyword arguments. *)
Context {Expr TypeInfo : Type}.
Variable conv2d : Expr → Expr → dict → result exn Expr.

(** [dict(attrs)]: a new object with the items of [attrs]. *)
Definition dict_copy (attrs : nat) (σ : store) : result exn (nat * store) :=
  match σ !! attrs with
  | Some items =>
      let l := fresh (dom σ) in
      Ok (l, <[l := items]> σ)
  | None => Raise (TypeError "object is not iterable")
  end.

(** [d[key] = v], in place. *)
Definition setitem (d : nat) (key : string) (v : AttrVal) (σ : store)
    : result exn store :=
  match σ !! d with
  | Some items => Ok (<[d := <[key := v]> items]> σ)
  | None => Raise (TypeError "object does not support item assignment")
  end.

(** [**d]: the items of [d], passed by value. *)
Definition kwargs (d : nat) (σ : store) : result exn dict :=
  match σ !! d with
  | Some items => Ok items
  | None => Raise (TypeError "argument after ** must be a mapping")
  end.

Definition alter_conv2d (attrs : nat) (inputs : list Expr)
    (tinfos : list TypeInfo) (σ : store) : result exn (Expr * store) :=
  match inputs with
  | [data; weight] =>
      '(new_attrs, σ1) ← dict_copy attrs σ;
      σ2 ← setitem new_attrs "data_layout" (AStr "NCHW16c") σ1;
      kw ← kwargs new_attrs σ2;
      call ← conv2d data weight kw;
      Ok (call, σ2)
  | _ => Raise (ValueError "not enough or too many values to unpack")
  end.

(** The keyword arguments [conv2d] receives. *)
Definition altered (items : dict) : dict :=
  <["data_layout" := AStr "NCHW16c"]> items.

Lemma altered_layout (items : dict) :
  altered items !! "data_layout" = Some (AStr "NCHW16c").
Proof. apply lookup_insert_eq. Qed.

Lemma altered_other (items : dict) (key : string) :
  key ≠ "data_layout" → altered items !! key = items !! key.
Proof. intros H. by apply lookup_insert_ne. Qed.

Lemma fresh_not_allocated (σ : store) (l : nat) :
  is_Some (σ !! l) → l ≠ fresh (dom σ).
Proof.
  intros H%elem_of_dom ->. by apply (is_fresh (dom σ)).
Qed.

(** What the hook computes, and what it leaves in the store. *)
Lemma alter_conv2d_run (attrs : nat) (items : dict) (data weight : Expr)
    (tinfos : list TypeInfo) (σ : store) :
  σ !! attrs = Some items →
  ∃ σ',
    alter_conv2d attrs [data; weight] tinfos σ
    = (call ← conv2d data weight (altered items); Ok (call, σ'))
    ∧ ∀ l, is_Some (σ !! l) → σ' !! l = σ !! l.
Proof.
  intros Hattrs.
  set (l := fresh (dom σ)).
  exists (<[l := altered items]> (<[l := items]> σ)). split.
  - unfold alter_conv2d, dict_copy. rewrite Hattrs. cbn.
    unfold setitem. fold l. rewrite lookup_insert_eq. cbn.
    unfold kwargs. rewrite lookup_insert_eq. cbn. reflexivity.
  - intros l' Hl'. apply fresh_not_allocated in Hl'. fold l in Hl'.
    by rewrite !lookup_insert_ne.
Qed.

(** C10: on its two inputs the hook returns [conv2d] of the same data
    and weight; the attributes it passes have [data_layout] set to
    'NCHW16c' and every other key as in the incoming attributes, and the
    incoming attribute object itself is left as it was. *)
Theorem alter_conv2d_frame (attrs : nat) (items : dict)
    (data weight : Expr) (tinfos : list TypeInfo) (σ : store) :
  σ !! attrs = Some items →
  ∃ kw σ',
    alter_conv2d attrs [data; weight] tinfos σ
    = (call ← conv2d data weight kw; Ok (call, σ'))
    ∧ kw !! "data_layout" = Some (AStr "NCHW16c")
    ∧ (∀ key, key ≠ "data_layout" → kw !! key = items !! key)
    ∧ σ' !! attrs = Some items.
Proof.
  intros Hattrs.
  destruct (alter_conv2d_run attrs items data weight tinfos σ Hattrs)
    as (σ' & Hrun & Hframe).
  exists (altered items), σ'. split; [exact Hrun|].
  split; [apply altered_layout|].
  split; [intros key; apply altered_other|].
  rewrite Hframe by (rewrite Hattrs; eauto). exact Hattrs.
Qed.

(** The store the hook leaves behind: one new object, the dictionary it
    built. *)
Lemma alter_conv2d_store (attrs : nat) (items : dict) (data weight : Expr)
    (tinfos : list TypeInfo) (σ : store) :
  σ !! attrs = Some items →
  alter_conv2d attrs [data; weight] tinfos σ
  = (call ← conv2d data weight (altered items);
     Ok (call, <[fresh (dom σ) := altered items]> σ)).
Proof.
  intros Hattrs. unfold alter_conv2d, dict_copy. rewrite Hattrs. cbn.
  unfold setitem. rewrite lookup_insert_eq. cbn.
  unfold kwargs. rewrite lookup_insert_eq. cbn.
  by rewrite insert_insert_eq.
Qed.

Lemma altered_twice (items : dict) : altered (altered items) = altered items.
Proof. apply insert_insert_eq. Qed.

(** X7: the unpacking comes first: with any number of inputs other than
    two the hook raises [ValueError], whatever [attrs] refers to, and
    [conv2d] is not reached. *)
Theorem alter_conv2d_arity (attrs : nat) (inputs : list Expr)
    (tinfos : list TypeInfo) (σ : store) :
  length inputs ≠ 2 →
  alter_conv2d attrs inputs tinfos σ
  = Raise (ValueError "not enough or too many values to unpack").
Proof.
  intros Hlen. destruct inputs as [|data [|weight [|extra inputs]]]; done.
Qed.

(** X8: a successful call of the hook adds exactly one object to the
    store, the dictionary of the keywords it passed on; every object that
    was there before is as it was. *)
Theorem alter_conv2d_allocates_one (attrs : nat) (items : dict)
    (data weight : Expr) (tinfos : list TypeInfo) (σ σ' : store)
    (call : Expr) :
  σ !! attrs = Some items →
  alter_conv2d attrs [data; weight] tinfos σ = Ok (call, σ') →
  dom σ' = dom σ ∪ {[fresh (dom σ)]}
  ∧ σ' !! fresh (dom σ) = Some (altered items)
  ∧ ∀ l, l ∈ dom σ → σ' !! l = σ !! l.
Proof.
  intros Hattrs. rewrite (alter_conv2d_store attrs items) by done.
  destruct (conv2d data weight (altered items)) as [c|e]; [|done].
  rewrite bind_Ok. intros H. inversion H; subst. split; [|split].
  - rewrite dom_insert_L. apply (comm_L (∪)).
  - apply lookup_insert_eq.
  - intros l Hl. apply lookup_insert_ne. intros <-.
    by apply (is_fresh (dom σ)).
Qed.

(** X9: the hook can be run again on the dictionary it built: it then
    returns the same call. *)
Theorem alter_conv2d_again (attrs : nat) (items : dict)
    (data weight : Expr) (tinfos : list TypeInfo) (σ σ' : store)
    (call : Expr) :
  σ !! attrs = Some items →
  alter_conv2d attrs [data; weight] tinfos σ = Ok (call, σ') →
  ∃ σ'', alter_conv2d (fresh (dom σ)) [data; weight] tinfos σ'
         = Ok (call, σ'').
Proof.
  intros Hattrs. rewrite (alter_conv2d_store attrs items) by done.
  destruct (conv2d data weight (altered items)) as [c|e] eqn:Hconv; [|done].
  rewrite bind_Ok. intros H. inversion H; subst. eexists.
  rewrite (alter_conv2d_store (fresh (dom σ)) (altered items))
    by apply lookup_insert_eq.
  rewrite altered_twice, Hconv. reflexivity.
Qed.
End AlterConv2d.

(** The attributes of the convolution built by [example()], where every
    keyword of [relay.nn.conv2d] has its default. *)
Definition example_attrs : dict :=
  list_to_map
    [("strides", AInts [1; 1]%Z); ("padding", AInts [0; 0]%Z);
     ("dilation", AInts [1; 1]%Z); ("groups", AInt 1);
     ("channels", ANone); ("kernel_size", ANone);
     ("data_layout", AStr "NCHW"); ("kernel_layout", AStr "OIHW");
     ("out_layout", AStr ""); ("out_dtype", AStr "")].

(** A stand-in for the framework's constructor: the call node of
    "nn.conv2d" on the two inputs, holding the keywords it was given. *)
Inductive rexpr : Type :=
| RVar (name : string)
| RCall (op : string) (args : list rexpr) (attrs : dict).

Definition conv2d_node (data weight : rexpr) (kw : dict)
    : result exn rexpr :=
  Ok (RCall "nn.conv2d" [data; weight] kw).

Example alter_conv2d_example :
  match alter_conv2d conv2d_node 0 [RVar "x"; RVar "weight"]
          ([] : list unit) {[0 := example_attrs]} with
  | Ok (call, _) =>
      call = RCall "nn.conv2d" [RVar "x"; RVar "weight"]
               (<["data_layout" := AStr "NCHW16c"]> example_attrs)
  | Raise _ => False
  end.
Proof. vm_compute. reflexivity. Qed.

Example alter_conv2d_one_input :
  alter_conv2d conv2d_node 0 [RVar "x"] ([] : list unit)
    {[0 := example_attrs]}
  = Raise (ValueError "not enough or too many values to unpack").
Proof. reflexivity. Qed.

Lemma alter_conv2d_frame_witness :
  ({[0 := example_attrs]} : store) !! 0 = Some example_attrs
  ∧ ∃ kw σ',
      alter_conv2d conv2d_node 0 [RVar "x"; RVar "weight"] ([] : list unit)
        {[0 := example_attrs]}
      = (call ← conv2d_node (RVar "x") (RVar "weight") kw; Ok (call, σ'))
      ∧ kw !! "data_layout" = Some (AStr "NCHW16c")
      ∧ (∀ key, key ≠ "data_layout" → kw !! key = example_attrs !! key)
      ∧ σ' !! 0 = Some example_attrs.
Proof.
  split; [reflexivity|].
  apply (alter_conv2d_frame conv2d_node 0 example_attrs
           (RVar "x") (RVar "weight") [] {[0 := example_attrs]}).
  reflexivity.
Defined.

Lemma alter_conv2d_arity_witness :
  length [RVar "x"] ≠ 2
  ∧ alter_conv2d conv2d_node 0 [RVar "x"] ([] : list unit)
      {[0 := example_attrs]}
    = Raise (ValueError "not enough or too many values to unpack").
Proof.
  split; [discriminate|].
  apply (alter_conv2d_arity conv2d_node 0 [RVar "x"] []
           {[0 := example_attrs]}).
  discriminate.
Defined.

(** The call and the store after the hook has run on [example_attrs]. *)
Definition example_call : rexpr :=
  RCall "nn.conv2d" [RVar "x"; RVar "weight"] (altered example_attrs).

Definition example_store : store :=
  <[fresh (dom ({[0 := example_attrs]} : store)) := altered example_attrs]>
    {[0 := example_attrs]}.

Lemma alter_conv2d_example_run :
  alter_conv2d conv2d_node 0 [RVar "x"; RVar "weight"] ([] : list unit)
    {[0 := example_attrs]}
  = Ok (example_call, example_store).
Proof.
  rewrite (alter_conv2d_store conv2d_node 0 example_attrs); reflexivity.
Qed.

Lemma alter_conv2d_allocates_one_witness :
  ({[0 := example_attrs]} : store) !! 0 = Some example_attrs
  ∧ alter_conv2d conv2d_node 0 [RVar "x"; RVar "weight"] ([] : list unit)
      {[0 := example_attrs]}
    = Ok (example_call, example_store)
  ∧ dom example_store
    = dom ({[0 := example_attrs]} : store)
      ∪ {[fresh (dom ({[0 := example_attrs]} : store))]}
  ∧ example_store !! fresh (dom ({[0 := example_attrs]} : store))
    = Some (altered example_attrs)
  ∧ ∀ l, l ∈ dom ({[0 := example_attrs]} : store) →
         example_store !! l = ({[0 := example_attrs]} : store) !! l.
Proof.
  split; [reflexivity|]. split; [exact alter_conv2d_example_run|].
  exact (alter_conv2d_allocates_one conv2d_node 0 example_attrs
           (RVar "x") (RVar "weight") [] {[0 := example_attrs]}
           example_store example_call eq_refl alter_conv2d_example_run).
Defined.

Lemma alter_conv2d_again_witness :
  ({[0 := example_attrs]} : store) !! 0 = Some example_attrs
  ∧ alter_conv2d conv2d_node 0 [RVar "x"; RVar "weight"] ([] : list unit)
      {[0 := example_attrs]}
    = Ok (example_call, example_store)
  ∧ ∃ σ'', alter_conv2d conv2d_node
             (fresh (dom ({[0 := example_attrs]} : store)))
             [RVar "x"; RVar "weight"] ([] : list unit) example_store
           = Ok (example_call, σ'').
Proof.
  split; [reflexivity|]. split; [exact alter_conv2d_example_run|].
  exact (alter_conv2d_again conv2d_node 0 example_attrs
           (RVar "x") (RVar "weight") [] {[0 := example_attrs]}
           example_store example_call eq_refl alter_conv2d_example_run).
Defined.

End Relay.

(** ** Loop nests over flat buffers

    The notebooks print the loop nests the framework lowers a schedule to.
    They are embedded as they are printed: integer index expressions in
    [Z], buffers as flat lists that are read and written by index, an
    access outside a buffer being an error. *)

Module Ir.

Inductive exn : Type :=
| OutOfBounds (index : Z)
| ShapeMismatch.

(** [int] in the generated kernels is 32 bits wide: every operation
    wraps. *)
Definition int32 (z : Z) : Z := ((z + 2 ^ 31) mod 2 ^ 32 - 2 ^ 31)%Z.
Definition iadd (a b : Z) : Z := int32 (a + b).
Definition isub (a b : Z) : Z := int32 (a - b).
Definition imul (a b : Z) : Z := int32 (a * b).
Definition idiv (a b : Z) : Z := int32 (a ÷ b).

Lemma int32_id (z : Z) :
  (- 2 ^ 31 ≤ z < 2 ^ 31)%Z → int32 z = z.
Proof. intros H. unfold int32. rewrite Z.mod_small; lia. Qed.

Section Buffers.
Context {T : Type}.

(** [buf[i]] as a value. *)
Definition load (buf : list T) (i : Z) : result exn T :=
  if (0 <=? i)%Z then
    match buf !! Z.to_nat i with
    | Some v => Ok v
    | None => Raise (OutOfBounds i)
    end
  else Raise (OutOfBounds i).

(** [buf[i] = v]. *)
Definition store (buf : list T) (i : Z) (v : T) : result exn (list T) :=
  if (0 <=? i)%Z && (i <? Z.of_nat (length buf))%Z then
    Ok (<[Z.to_nat i := v]> buf)
  else Raise (OutOfBounds i).

Lemma load_ok (buf : list T) (i : nat) (z : Z) (v : T) :
  z = Z.of_nat i → buf !! i = Some v → load buf z = Ok v.
Proof.
  intros -> H. unfold load.
  destruct (Z.leb_spec 0 (Z.of_nat i)); [|lia].
  by rewrite Nat2Z.id, H.
Qed.

Lemma store_ok (buf : list T) (i : nat) (z : Z) (v : T) :
  z = Z.of_nat i → i < length buf → store buf z v = Ok (<[i := v]> buf).
Proof.
  intros -> H. unfold store.
  destruct (Z.leb_spec 0 (Z.of_nat i)); [|lia].
  destruct (Z.ltb_spec (Z.of_nat i) (Z.of_nat (length buf))); [|lia].
  by rewrite Nat2Z.id.
Qed.
End Buffers.

Section Loops.
Context {S : Type}.

(** The first [count] iterations of a loop whose variable starts at 0. *)
Fixpoint iterate (count : nat) (body : Z → S → result exn S) (s : S)
    : result exn S :=
  match count with
  | O => Ok s
  | Datatypes.S c => s' ← iterate c body s; body (Z.of_nat c) s'
  end.

(** [for (v, min, extent) { body }]. *)
Definition for_ (min extent : Z) (body : Z → S → result exn S) (s : S)
    : result exn S :=
  iterate (Z.to_nat extent) (λ v, body (min + v)%Z) s.

(** Loop invariant rule: every iteration succeeds and re-establishes
    the invariant at the next index. *)
Lemma iterate_inv (P : nat → S → Prop) (count : nat)
    (body : Z → S → result exn S) (s : S) :
  P 0 s →
  (∀ i s1, i < count → P i s1 →
     ∃ s2, body (Z.of_nat i) s1 = Ok s2 ∧ P (Datatypes.S i) s2) →
  ∃ s', iterate count body s = Ok s' ∧ P count s'.
Proof.
  intros H0 Hstep. induction count as [|c IH]; simpl.
  - eauto.
  - destruct IH as (s1 & -> & H1); [intros; apply Hstep; [lia|done]|].
    cbn. apply Hstep; [lia|done].
Qed.

Lemma iterate_skip (count : nat) (body : Z → S → result exn S) (s : S) :
  (∀ i s1, i < count → body (Z.of_nat i) s1 = Ok s1) →
  iterate count body s = Ok s.
Proof.
  intros H. induction count as [|c IH]; simpl; [done|].
  rewrite IH by (intros; apply H; lia). rewrite bind_Ok. apply H. lia.
Qed.

Lemma for_skip (extent : Z) (body : Z → S → result exn S) (s : S) :
  (∀ v s1, body v s1 = Ok s1) → for_ 0 extent body s = Ok s.
Proof. intros H. apply iterate_skip. intros. apply H. Qed.

Lemma for_inv (P : nat → S → Prop) (n : nat) (extent : Z)
    (body : Z → S → result exn S) (s : S) :
  extent = Z.of_nat n →
  P 0 s →
  (∀ i s1, i < n → P i s1 →
     ∃ s2, body (Z.of_nat i) s1 = Ok s2 ∧ P (Datatypes.S i) s2) →
  ∃ s', for_ 0 extent body s = Ok s' ∧ P n s'.
Proof.
  intros -> H0 Hstep. unfold for_. rewrite Nat2Z.id.
  apply iterate_inv; [done|]. intros i s1 Hi HP.
  rewrite Z.add_0_l. by apply Hstep.
Qed.
End Loops.

Section Threads.
Context {S : Type}.

(** Independent instances of a kernel (blocks, or the threads of a
    block), run one after the other in a given order. *)
Fixpoint run_each {I : Type} (order : list I)
    (kernel : I → S → result exn S) (s : S) : result exn S :=
  match order with
  | [] => Ok s
  | i :: rest => s' ← kernel i s; run_each rest kernel s'
  end.

(** Threads are pairs: block and thread index, or the two thread indices
    inside a block. *)
Definition run_threads (order : list (nat * nat))
    (kernel : Z → Z → S → result exn S) (s : S) : result exn S :=
  run_each order (λ t, kernel (Z.of_nat t.1) (Z.of_nat t.2)) s.

Definition run_blocks (order : list nat)
    (kernel : Z → S → result exn S) (s : S) : result exn S :=
  run_each order (λ b, kernel (Z.of_nat b)) s.

(** The threads of a launch of [blocks] blocks of [threads] threads. *)
Definition thread_grid (blocks threads : nat) : list (nat * nat) :=
  bx ← seq 0 blocks; tx ← seq 0 threads; [(bx, tx)].

Lemma elem_of_thread_grid (blocks threads bx tx : nat) :
  (bx, tx) ∈ thread_grid blocks threads ↔ bx < blocks ∧ tx < threads.
Proof.
  unfold thread_grid. rewrite list_elem_of_bind. split.
  - intros (bx' & Ht & Hbx%elem_of_seq).
    apply list_elem_of_bind in Ht as (tx' & Ht & Htx%elem_of_seq).
    apply list_elem_of_singleton in Ht as [= -> ->]. lia.
  - intros [Hbx Htx]. exists bx. split; [|apply elem_of_seq; lia].
    apply list_elem_of_bind. exists tx.
    split; [by apply list_elem_of_singleton | apply elem_of_seq; lia].
Qed.
End Threads.

Section RowSum.
(** Elements with their addition: the statements below are about the
    mathematical result, so the addition is that of a commutative monoid. *)
Context {T : Type} (add : T → T → T) (zero : T).

(** *** Default schedule (reduction notebook)
<<
    for (i, 0, n) {
      B[i] = 0.000000f
      for (k, 0, m) { B[i] = (B[i] + A[((i*m) + k)]) } }
>> *)
Definition rowsum_default (n m : Z) (A B : list T) : result exn (list T) :=
  for_ 0 n (λ i B,
    B ← store B i zero;
    for_ 0 m (λ k B,
      b ← load B i;
      a ← load A ((i * m) + k)%Z;
      store B i (add b a)) B) B.

(** *** After [split] of both axes, factors 16 and 32
<<
    for (i.outer, 0, ((n + 31)/32)) {
      for (i.inner, 0, 32) {
        if (likely(((i.outer*32) < (n - i.inner)))) {
          B[((i.outer*32) + i.inner)] = 0.000000f }
        for (k.outer, 0, ((m + 15)/16)) {
          for (k.inner, 0, 16) {
            if (likely(((i.outer*32) < (n - i.inner)))) {
              if (likely(((k.outer*16) < (m - k.inner)))) {
                B[((i.outer*32) + i.inner)] =
                  (B[((i.outer*32) + i.inner)] +
                   A[(((((i.outer*32) + i.inner)*m) + (k.outer*16)) + k.inner)])
    } } } } } }
>> *)
Definition rowsum_split_body (n m : Z) (A : list T) (io ii : Z)
    (B : list T) : result exn (list T) :=
  B ← (if ((io * 32) <? (n - ii))%Z
       then store B ((io * 32) + ii)%Z zero else Ok B);
  for_ 0 ((m + 15) ÷ 16) (λ ko B,
    for_ 0 16 (λ ki B,
      if ((io * 32) <? (n - ii))%Z then
        if ((ko * 16) <? (m - ki))%Z then
          b ← load B ((io * 32) + ii)%Z;
          a ← load A (((((io * 32) + ii) * m) + (ko * 16)) + ki)%Z;
          store B ((io * 32) + ii)%Z (add b a)
        else Ok B
      else Ok B) B) B.

Definition rowsum_split (n m : Z) (A B : list T) : result exn (list T) :=
  for_ 0 ((n + 31) ÷ 32) (λ io B,
    for_ 0 32 (λ ii B, rowsum_split_body n m A io ii B) B) B.

(** *** After [bind] of the two row axes to blocks and threads
<<
    // attr [iter_var(blockIdx.x, , blockIdx.x)] thread_extent = ((n + 31)/32)
    // attr [iter_var(threadIdx.x, , threadIdx.x)] thread_extent = 32
    if (likely(((blockIdx.x*32) < (n - threadIdx.x)))) {
      B[((blockIdx.x*32) + threadIdx.x)] = 0.000000f }
    for (k.outer, 0, ((m + 15)/16)) {
      for (k.inner, 0, 16) { ... } }     // as after the split
>>
    The two outer loops have become the launch: the body is the one
    above, run by every thread of the grid. *)
Definition rowsum_bound (order : list (nat * nat)) (n m : Z)
    (A B : list T) : result exn (list T) :=
  run_threads order (rowsum_split_body n m A) B.

(** *** After [rfactor] on the inner reduction axis
<<
    produce B.rf {
      for (k.inner, 0, 16) {
        for (i, 0, n) {
          B.rf[((k.inner*n) + i)] = 0.000000f
          for (k.outer, 0, ((m + 15)/16)) {
            if ((k.inner < (m - (k.outer*16)))) {
              B.rf[((k.inner*n) + i)] =
                (B.rf[((k.inner*n) + i)] + A[((k.inner + (i*m)) + (k.outer*16))])
    } } } } }
    produce B {
      for (ax0, 0, n) {
        B[ax0] = 0.000000f
        for (k.inner.v, 0, 16) {
          B[ax0] = (B[ax0] + B.rf[(ax0 + (k.inner.v*n))]) } } }
>> *)
Definition produce_B_rf (n m : Z) (A Brf : list T) : result exn (list T) :=
  for_ 0 16 (λ ki Brf,
    for_ 0 n (λ i Brf,
      Brf ← store Brf ((ki * n) + i)%Z zero;
      for_ 0 ((m + 15) ÷ 16) (λ ko Brf,
        if (ki <? (m - (ko * 16)))%Z then
          r ← load Brf ((ki * n) + i)%Z;
          a ← load A ((ki + (i * m)) + (ko * 16))%Z;
          store Brf ((ki * n) + i)%Z (add r a)
        else Ok Brf) Brf) Brf) Brf.

Definition produce_B (n : Z) (Brf B : list T) : result exn (list T) :=
  for_ 0 n (λ ax0 B,
    B ← store B ax0 zero;
    for_ 0 16 (λ kiv B,
      b ← load B ax0;
      r ← load Brf (ax0 + (kiv * n))%Z;
      store B ax0 (add b r)) B) B.

Definition rowsum_rfactor (n m : Z) (A Brf B : list T)
    : result exn (list T * list T) :=
  Brf ← produce_B_rf n m A Brf;
  B ← produce_B n Brf B;
  Ok (Brf, B).

(** *** The generated kernel after [rfactor], thread binding and
    [compute_at]

    Rows go to [blockIdx.x] and [threadIdx.y], the factored axis to
    [threadIdx.x]; [B.rf] is computed at the reduction axis, as one
    accumulator per thread, and the sixteen accumulators of a row are
    added up through shared memory.
<<
    extern "C" __global__ void default_function_kernel0(
        float* __restrict__ A, float* __restrict__ B, int m, int n) {
      float B_rf[1];
      __shared__ float red_buf0[512];
      B_rf[0] = 0.000000e+00f;
      for (int k_outer = 0; k_outer < ((15 + m) / 16); ++k_outer) {
        if ((((int)blockIdx.x) * 32) < (n - ((int)threadIdx.y))) {
          if (((int)threadIdx.x) < (m - (k_outer * 16))) {
            B_rf[0] = (B_rf[0] + A[(((((((int)blockIdx.x) * 32) +
              ((int)threadIdx.y)) * m) + ((int)threadIdx.x)) + (k_outer * 16))]);
      } } }
>> *)
Definition kernel0_partial (n m : Z) (A : list T)
    (blockIdx_x threadIdx_y threadIdx_x : Z) : result exn T :=
  for_ 0 (idiv (iadd 15 m) 16) (λ k_outer B_rf,
    if (imul blockIdx_x 32 <? isub n threadIdx_y)%Z then
      if (threadIdx_x <? isub m (imul k_outer 16))%Z then
        a ← load A (iadd (iadd (imul (iadd (imul blockIdx_x 32) threadIdx_y) m)
                            threadIdx_x)
                      (imul k_outer 16));
        Ok (add B_rf a)
      else Ok B_rf
    else Ok B_rf) zero.

(**
<<
      red_buf0[((((int)threadIdx.y) * 16) + ((int)threadIdx.x))] =
        (((((int)blockIdx.x) * 32) < (n - ((int)threadIdx.y)))
           ? B_rf[0] : 0.000000e+00f);
      __syncthreads();
>> *)
Definition kernel0_fill (n m : Z) (A : list T) (blockIdx_x : Z)
    (threadIdx_y threadIdx_x : Z) (red_buf0 : list T)
    : result exn (list T) :=
  B_rf ← kernel0_partial n m A blockIdx_x threadIdx_y threadIdx_x;
  store red_buf0 (iadd (imul threadIdx_y 16) threadIdx_x)
    (if (imul blockIdx_x 32 <? isub n threadIdx_y)%Z then B_rf else zero).

(**
<<
      if (((int)threadIdx.x) < 8) {
        red_buf0[((((int)threadIdx.y) * 16) + ((int)threadIdx.x))] =
          (red_buf0[((((int)threadIdx.y) * 16) + ((int)threadIdx.x))] +
           red_buf0[((8 + (((int)threadIdx.y) * 16)) + ((int)threadIdx.x))]);
        ... the same with 4, 2 and 1 in place of 8
      }
      __syncthreads();
>>
      The four statements have no barrier between them: the threads of a
      row belong to one warp and execute each statement together, every
      thread reading its operands before any of them writes.  [old] is the
      buffer as the statement finds it. *)
Definition kernel0_reduce (offset : Z) (old : list T)
    (threadIdx_y threadIdx_x : Z) (red_buf0 : list T)
    : result exn (list T) :=
  if (threadIdx_x <? 8)%Z then
    x ← load old (iadd (imul threadIdx_y 16) threadIdx_x);
    y ← load old (iadd (iadd offset (imul threadIdx_y 16)) threadIdx_x);
    store red_buf0 (iadd (imul threadIdx_y 16) threadIdx_x) (add x y)
  else Ok red_buf0.

Definition lockstep (offset : Z) (red_buf0 : list T) : result exn (list T) :=
  run_threads (thread_grid 32 16) (kernel0_reduce offset red_buf0) red_buf0.

(**
<<
      if ((((int)blockIdx.x) * 32) < (n - ((int)threadIdx.y))) {
        if (((int)threadIdx.x) == 0) {
          B[((((int)blockIdx.x) * 32) + ((int)threadIdx.y))] =
            red_buf0[(((int)threadIdx.y) * 16)];
      } }
>> *)
Definition kernel0_store (n : Z) (blockIdx_x : Z) (red_buf0 : list T)
    (threadIdx_y threadIdx_x : Z) (B : list T) : result exn (list T) :=
  if (imul blockIdx_x 32 <? isub n threadIdx_y)%Z then
    if (threadIdx_x =? 0)%Z then
      v ← load red_buf0 (imul threadIdx_y 16);
      store B (iadd (imul blockIdx_x 32) threadIdx_y) v
    else Ok B
  else Ok B.

(** One block: its 32 x 16 threads, in the order [threads] between the
    barriers, on its own shared buffer, which starts with whatever
    [shared] holds. *)
Definition kernel0_block (threads : list (nat * nat)) (n m : Z)
    (A shared : list T) (blockIdx_x : Z) (B : list T)
    : result exn (list T) :=
  red_buf0 ← run_threads threads (kernel0_fill n m A blockIdx_x) shared;
  red_buf0 ← lockstep 8 red_buf0;
  red_buf0 ← lockstep 4 red_buf0;
  red_buf0 ← lockstep 2 red_buf0;
  red_buf0 ← lockstep 1 red_buf0;
  run_threads threads (kernel0_store n blockIdx_x red_buf0) B.

(** [fcuda(a, b)]: [n] and [m] come from the shape of [a]; the blocks run
    in the order [blocks]. *)
Definition fcuda (blocks : list nat) (threads : list (nat * nat))
    (shared : list T) (n m : nat) (a b : list T) : result exn (list T) :=
  if negb (length a =? n * m) || negb (length b =? n) then Raise ShapeMismatch
  else run_blocks blocks
         (kernel0_block threads (Z.of_nat n) (Z.of_nat m) a shared) b.

(** *** The sums as the declaration and the rewrite state them *)

(** [f 0 + f 1 + ... + f (n-1)], accumulated from [zero]. *)
Fixpoint bigsum (f : nat → T) (n : nat) : T :=
  match n with
  | O => zero
  | Datatypes.S k => add (bigsum f k) (f k)
  end.

(** The same sum restricted to the indices that satisfy [g]. *)
Fixpoint bigsum_where (g : nat → bool) (f : nat → T) (n : nat) : T :=
  match n with
  | O => zero
  | Datatypes.S k =>
      if g k then add (bigsum_where g f k) (f k) else bigsum_where g f k
  end.

(** Element [(i, k)] of an [n]-by-[m] tensor stored row by row. *)
Definition at2 (A : list T) (m i k : nat) : T :=
  default zero (A !! (i * m + k)).

(** Declaration: [B(i) = sum over k in [0,m) of A(i,k)]. *)
Definition rowsum_decl (A : list T) (m i : nat) : T :=
  bigsum (λ k, at2 A m i k) m.

(** Rewrite: [B.rf(ki,i)] sums [A(i, ko*16+ki)] over the [ko] with
    [ko*16+ki < m]; [B(i)] sums [B.rf(ki,i)] over [ki] in [0,16). *)
Definition B_rf (A : list T) (m ki i : nat) : T :=
  bigsum_where (λ ko, ko * 16 + ki <? m)
    (λ ko, at2 A m i (ko * 16 + ki)) ((m + 15) / 16).

Definition rowsum_rf (A : list T) (m i : nat) : T :=
  bigsum (λ ki, B_rf A m ki i) 16.
End RowSum.

Section SumLaws.
Context {T : Type} (add : T → T → T) (zero : T).
Hypothesis add_assoc : ∀ x y z, add x (add y z) = add (add x y) z.
Hypothesis add_comm : ∀ x y, add x y = add y x.
Hypothesis add_zero_l : ∀ x, add zero x = x.

#[local] Abbreviation bigsum := (bigsum add zero).
#[local] Abbreviation bigsum_where := (bigsum_where add zero).

Lemma add_zero_r (x : T) : add x zero = x.
Proof. by rewrite add_comm. Qed.

Lemma add_swap (a b c d : T) :
  add (add a b) (add c d) = add (add a c) (add b d).
Proof.
  rewrite <- (add_assoc a b), (add_assoc b c), (add_comm b c).
  by rewrite <- (add_assoc c b), (add_assoc a c).
Qed.

Lemma bigsum_ext (f f' : nat → T) (n : nat) :
  (∀ k, k < n → f k = f' k) → bigsum f n = bigsum f' n.
Proof.
  induction n as [|n IH]; intros H; simpl; [done|].
  rewrite IH by (intros; apply H; lia). by rewrite H by lia.
Qed.

Lemma bigsum_zero (n : nat) : bigsum (λ _, zero) n = zero.
Proof. induction n as [|n IH]; simpl; [done|]. by rewrite IH, add_zero_l. Qed.

Lemma bigsum_where_all (f : nat → T) (n : nat) :
  bigsum_where (λ _, true) f n = bigsum f n.
Proof. induction n as [|n IH]; simpl; [done | by rewrite IH]. Qed.

(** Skipping a term is adding [zero]. *)
Lemma bigsum_where_if (g : nat → bool) (f : nat → T) (n : nat) :
  bigsum_where g f n = bigsum (λ k, if g k then f k else zero) n.
Proof.
  induction n as [|n IH]; simpl; [done|]. rewrite IH.
  destruct (g n); [done | by rewrite add_zero_r].
Qed.

Lemma bigsum_add (f g : nat → T) (n : nat) :
  bigsum (λ k, add (f k) (g k)) n = add (bigsum f n) (bigsum g n).
Proof.
  induction n as [|n IH]; simpl; [by rewrite add_zero_l|].
  by rewrite IH, add_swap.
Qed.

(** The two orders of a double sum. *)
Lemma bigsum_exchange (f : nat → nat → T) (a b : nat) :
  bigsum (λ i, bigsum (λ j, f i j) b) a
  = bigsum (λ j, bigsum (λ i, f i j) a) b.
Proof.
  induction a as [|a IH]; simpl.
  - by rewrite bigsum_zero.
  - by rewrite IH, <- bigsum_add.
Qed.

Lemma bigsum_app (h : nat → T) (a b : nat) :
  bigsum h (a + b) = add (bigsum h a) (bigsum (λ j, h (a + j)) b).
Proof.
  induction b as [|b IH]; simpl.
  - by rewrite Nat.add_0_r, add_zero_r.
  - rewrite Nat.add_succ_r. simpl. by rewrite IH, add_assoc.
Qed.

(** Blocks of [w] consecutive indices, one after the other. *)
Lemma bigsum_blocks (h : nat → T) (w blocks : nat) :
  bigsum (λ o, bigsum (λ i, h (o * w + i)) w) blocks = bigsum h (blocks * w).
Proof.
  induction blocks as [|o IH]; simpl; [done|].
  by rewrite IH, (Nat.add_comm w), bigsum_app.
Qed.

(** Indices past the extent contribute nothing. *)
Lemma bigsum_guarded (f : nat → T) (m n : nat) :
  m ≤ n → bigsum (λ j, if j <? m then f j else zero) n = bigsum f m.
Proof.
  intros Hle. replace n with (m + (n - m)) by lia.
  rewrite bigsum_app.
  rewrite (bigsum_ext (λ j, if m + j <? m then f (m + j) else zero)
             (λ _, zero)).
  2:{ intros k _. by destruct (Nat.ltb_spec (m + k) m); [lia|]. }
  rewrite bigsum_zero, add_zero_r.
  apply bigsum_ext. intros k Hk.
  by destruct (Nat.ltb_spec k m); [|lia].
Qed.

(** Adding the upper half onto the lower half. *)
Lemma bigsum_fold_half (r : nat → T) (w : nat) :
  bigsum (λ t, add (r t) (r (t + w))) w = bigsum r (w + w).
Proof.
  rewrite bigsum_add, bigsum_app. f_equal.
  apply bigsum_ext. intros t _. by rewrite Nat.add_comm.
Qed.

(** A sum cut into guarded blocks of [w] terms. *)
Lemma bigsum_split (f : nat → T) (m w blocks : nat) :
  m ≤ blocks * w →
  bigsum (λ o, bigsum_where (λ i, o * w + i <? m)
                 (λ i, f (o * w + i)) w) blocks
  = bigsum f m.
Proof.
  intros Hle.
  rewrite (bigsum_ext _
    (λ o, bigsum (λ i, (λ j, if j <? m then f j else zero) (o * w + i)) w)).
  2:{ intros o _. by rewrite bigsum_where_if. }
  rewrite (bigsum_blocks (λ j, if j <? m then f j else zero)).
  by apply bigsum_guarded.
Qed.

(** The factored row sum is the declared row sum. *)
Lemma rowsum_rf_decl (A : list T) (m i : nat) :
  rowsum_rf add zero A m i = rowsum_decl add zero A m i.
Proof.
  unfold rowsum_rf, rowsum_decl, B_rf.
  set (h := λ j, if j <? m then at2 zero A m i j else zero).
  rewrite (bigsum_ext _
    (λ ki, bigsum (λ ko, h (ko * 16 + ki)) ((m + 15) / 16))).
  2:{ intros ki _. by rewrite bigsum_where_if. }
  rewrite bigsum_exchange, bigsum_blocks.
  apply bigsum_guarded.
  pose proof (Nat.div_mod (m + 15) 16 ltac:(lia)) as Hdm.
  pose proof (Nat.mod_upper_bound (m + 15) 16 ltac:(lia)). lia.
Qed.
End SumLaws.

Section Filling.
Context {T : Type}.

(** A cell that is rewritten [n] times, each time from its own value. *)
Fixpoint fold_steps (step : nat → T → T) (v : T) (n : nat) : T :=
  match n with
  | O => v
  | Datatypes.S k => step k (fold_steps step v k)
  end.

(** A loop whose iterations all rewrite cell [j] from its own value
    leaves the rest of the buffer alone. *)
Lemma update_in_place (K : nat) (step : nat → T → T) (j : nat)
    (body : Z → list T → result exn (list T)) (B : list T) (v : T) :
  B !! j = Some v →
  (∀ k B1 x, k < K → length B1 = length B → B1 !! j = Some x →
     body (Z.of_nat k) B1 = Ok (<[j := step k x]> B1)) →
  iterate K body B = Ok (<[j := fold_steps step v K]> B).
Proof.
  intros Hv Hbody. pose proof (lookup_lt_Some _ _ _ Hv) as Hj.
  induction K as [|K IH]; simpl.
  - by rewrite list_insert_id.
  - rewrite IH by (intros; apply Hbody; [lia|done..]). cbn.
    rewrite (Hbody K _ (fold_steps step v K)).
    + by rewrite list_insert_insert_eq.
    + lia.
    + apply length_insert.
    + by apply list_lookup_insert_eq.
Qed.

Lemma for_update_in_place (K : nat) (extent : Z) (step : nat → T → T)
    (j : nat) (body : Z → list T → result exn (list T)) (B : list T)
    (v : T) :
  extent = Z.of_nat K →
  B !! j = Some v →
  (∀ k B1 x, k < K → length B1 = length B → B1 !! j = Some x →
     body (Z.of_nat k) B1 = Ok (<[j := step k x]> B1)) →
  for_ 0 extent body B = Ok (<[j := fold_steps step v K]> B).
Proof.
  intros -> Hv Hbody. unfold for_. rewrite Nat2Z.id.
  apply update_in_place; [done|]. intros k B1 x Hk Hlen Hx.
  rewrite Z.add_0_l. by apply Hbody.
Qed.

(** [writes F W B B']: [B'] is [B] where cells of [W] may have been set,
    each to the value [F] gives it, and every cell of [W] inside the
    buffer has been. *)
Definition writes (F : nat → T) (W : nat → Prop) (B B' : list T) : Prop :=
  length B' = length B
  ∧ (∀ p, B' !! p = B !! p ∨ (W p ∧ B' !! p = Some (F p)))
  ∧ (∀ p, W p → p < length B → B' !! p = Some (F p)).

Lemma writes_cell (F : nat → T) (p : nat) (B : list T) :
  writes F (λ q, q = p) B (<[p := F p]> B).
Proof.
  split; [apply length_insert|]. split.
  - intros q. destruct (decide (p = q)) as [<-|Hne].
    + destruct (decide (p < length B)) as [Hlt|Hge].
      * right. split; [done|]. by apply list_lookup_insert_eq.
      * left. by rewrite list_insert_ge by lia.
    + left. by apply list_lookup_insert_ne.
  - intros q -> Hq. by apply list_lookup_insert_eq.
Qed.

Lemma writes_nothing (F : nat → T) (B : list T) :
  writes F (λ _, False) B B.
Proof. split; [done|]. split; [by left | done]. Qed.

Lemma writes_weaken (F : nat → T) (W W' : nat → Prop) (B B' : list T) :
  (∀ p, W p ↔ W' p) → writes F W B B' → writes F W' B B'.
Proof.
  intros HW (Hlen & Hany & Hall). split; [done|]. split.
  - intros p. destruct (Hany p) as [?|[? ?]]; [by left|].
    right. split; [by apply HW | done].
  - intros p Hp. apply Hall. by apply HW.
Qed.

(** Iterations that each write their own cells write the union. *)
Lemma iterate_writes (count : nat) (W : nat → nat → Prop) (F : nat → T)
    (body : Z → list T → result exn (list T)) (B : list T) :
  (∀ i B1, i < count → length B1 = length B →
     ∃ B2, body (Z.of_nat i) B1 = Ok B2 ∧ writes F (W i) B1 B2) →
  ∃ B', iterate count body B = Ok B'
        ∧ writes F (λ p, ∃ i, i < count ∧ W i p) B B'.
Proof.
  intros Hbody. induction count as [|c IH]; simpl.
  - exists B. split; [done|]. split; [done|]. split; [by left|].
    intros p (i & Hi & _). lia.
  - destruct IH as (B1 & -> & Hlen1 & Hany1 & Hall1);
      [intros; apply Hbody; [lia|done]|]. cbn.
    destruct (Hbody c B1 ltac:(lia) Hlen1) as (B2 & -> & Hlen2 & Hany2 & Hall2).
    exists B2. split; [done|]. split; [congruence|]. split.
    + intros p. destruct (Hany2 p) as [Heq|[Hw Hv]].
      * rewrite Heq. destruct (Hany1 p) as [?|[(i & Hi & Hw) Hv]]; [by left|].
        right. split; [|done]. exists i. split; [lia|done].
      * right. split; [|done]. exists c. split; [lia|done].
    + intros p (i & Hi & Hw) Hp.
      destruct (decide (i = c)) as [->|Hne].
      * apply Hall2; [done|lia].
      * destruct (Hany2 p) as [Heq|[_ Hv]]; [|done].
        rewrite Heq. apply Hall1; [|done]. exists i. split; [lia|done].
Qed.

Lemma for_writes (count : nat) (extent : Z) (W : nat → nat → Prop)
    (F : nat → T) (body : Z → list T → result exn (list T)) (B : list T) :
  extent = Z.of_nat count →
  (∀ i B1, i < count → length B1 = length B →
     ∃ B2, body (Z.of_nat i) B1 = Ok B2 ∧ writes F (W i) B1 B2) →
  ∃ B', for_ 0 extent body B = Ok B'
        ∧ writes F (λ p, ∃ i, i < count ∧ W i p) B B'.
Proof.
  intros -> Hbody. unfold for_. rewrite Nat2Z.id.
  apply iterate_writes. intros i B1 Hi Hlen.
  rewrite Z.add_0_l. by apply Hbody.
Qed.

(** Instances that each write their own cells write the union, in
    whatever order they run. *)
Lemma run_each_writes {I : Type} (order : list I)
    (W : I → nat → Prop) (F : nat → T)
    (kernel : I → list T → result exn (list T)) (C : list T) :
  (∀ i C1, i ∈ order → length C1 = length C →
     ∃ C2, kernel i C1 = Ok C2 ∧ writes F (W i) C1 C2) →
  ∃ C', run_each order kernel C = Ok C'
        ∧ writes F (λ p, ∃ i, i ∈ order ∧ W i p) C C'.
Proof.
  revert C. induction order as [|i rest IH]; intros C Hk; simpl.
  - exists C. split; [done|]. split; [done|]. split; [by left|].
    intros p (? & Hin & _). by apply elem_of_nil in Hin.
  - destruct (Hk i C) as (C1 & -> & Hlen1 & Hany1 & Hall1);
      [by left|done|]. rewrite bind_Ok.
    destruct (IH C1) as (C2 & -> & Hlen2 & Hany2 & Hall2).
    { intros i' C3 Hin Hlen3. apply Hk; [by right|congruence]. }
    exists C2. split; [done|]. split; [congruence|]. split.
    + intros p. destruct (Hany2 p) as [Heq|[(i' & Hin & Hw) Hv]].
      * rewrite Heq. destruct (Hany1 p) as [?|[Hw Hv]]; [by left|].
        right. split; [|done]. exists i. split; [by left|done].
      * right. split; [|done]. exists i'. split; [by right|done].
    + intros p (i' & Hin & Hw) Hp.
      apply elem_of_cons in Hin as [->|Hin].
      * destruct (Hany2 p) as [Heq|[_ Hv]]; [|done].
        rewrite Heq. by apply Hall1.
      * apply Hall2; [|lia]. by exists i'.
Qed.

Lemma run_threads_writes (order : list (nat * nat))
    (W : nat → nat → nat → Prop) (F : nat → T)
    (kernel : Z → Z → list T → result exn (list T)) (C : list T) :
  (∀ bx tx C1, (bx, tx) ∈ order → length C1 = length C →
     ∃ C2, kernel (Z.of_nat bx) (Z.of_nat tx) C1 = Ok C2
           ∧ writes F (W bx tx) C1 C2) →
  ∃ C', run_threads order kernel C = Ok C'
        ∧ writes F (λ p, ∃ bx tx, (bx, tx) ∈ order ∧ W bx tx p) C C'.
Proof.
  intros Hk. unfold run_threads.
  destruct (run_each_writes order (λ t, W t.1 t.2) F
              (λ t, kernel (Z.of_nat t.1) (Z.of_nat t.2)) C)
    as (C' & HC' & Hw).
  { intros [bx tx] C1 Hin Hlen. by apply Hk. }
  exists C'. split; [done|]. eapply writes_weaken; [|exact Hw].
  intros p. split.
  - intros ([bx tx] & Hin & Hp). by exists bx, tx.
  - intros (bx & tx & Hin & Hp). by exists (bx, tx).
Qed.

(** When every cell has been written the buffer is the table of [F]. *)
Lemma writes_all (F : nat → T) (W : nat → Prop) (B B' : list T) :
  writes F W B B' → (∀ p, p < length B → W p) →
  B' = F <$> seq 0 (length B).
Proof.
  intros (Hlen & _ & Hall) Hcover. apply list_eq. intros p.
  rewrite list_lookup_fmap.
  destruct (decide (p < length B)) as [Hlt|Hge].
  - rewrite Hall by auto. by rewrite lookup_seq_lt.
  - rewrite (lookup_ge_None_2 B') by lia.
    by rewrite (lookup_ge_None_2 (seq 0 (length B)))
      by (rewrite length_seq; lia).
Qed.

(** The same when the buffer was a table already and the cells that are
    not written are those where the two tables agree. *)
Lemma writes_table (F G : nat → T) (W : nat → Prop) (N : nat)
    (B' : list T) :
  writes F W (G <$> seq 0 N) B' →
  (∀ p, p < N → W p ∨ F p = G p) →
  B' = F <$> seq 0 N.
Proof.
  intros (Hlen & Hany & Hall) Hcover. apply list_eq. intros p.
  rewrite length_fmap, length_seq in Hlen, Hall.
  rewrite list_lookup_fmap.
  destruct (decide (p < N)) as [Hlt|Hge].
  - rewrite lookup_seq_lt by done. simpl.
    destruct (Hcover p Hlt) as [Hw|Heq]; [by apply Hall|].
    destruct (Hany p) as [Hsame|[_ Hv]]; [|done].
    rewrite Hsame, list_lookup_fmap, lookup_seq_lt by done. simpl.
    by rewrite Heq.
  - rewrite (lookup_ge_None_2 B') by lia.
    by rewrite (lookup_ge_None_2 (seq 0 N)) by (rewrite length_seq; lia).
Qed.
End Filling.

Section RowSumCorrect.
Context {T : Type} (add : T → T → T) (zero : T).
Hypothesis add_assoc : ∀ x y z, add x (add y z) = add (add x y) z.
Hypothesis add_comm : ∀ x y, add x y = add y x.
Hypothesis add_zero_l : ∀ x, add zero x = x.

#[local] Abbreviation bigsum := (bigsum add zero).
#[local] Abbreviation bigsum_where := (bigsum_where add zero).
#[local] Abbreviation at2 := (at2 zero).
#[local] Abbreviation rowsum_decl := (rowsum_decl add zero).

(** A cell that accumulates guarded terms ends with its initial value
    plus their sum. *)
Lemma fold_steps_sum (g : nat → bool) (f : nat → T) (v : T) (K : nat) :
  fold_steps (λ k x, if g k then add x (f k) else x) v K
  = add v (bigsum_where g f K).
Proof.
  induction K as [|K IH]; simpl.
  - by rewrite add_zero_r.
  - rewrite IH. destruct (g K); [by rewrite add_assoc | done].
Qed.

Lemma fold_steps_ext (step step' : nat → T → T) (v : T) (K : nat) :
  (∀ k x, k < K → step k x = step' k x) →
  fold_steps step v K = fold_steps step' v K.
Proof.
  induction K as [|K IH]; intros H; simpl; [done|].
  rewrite IH by (intros; apply H; lia). apply H. lia.
Qed.

Lemma load_at2 (A : list T) (n m i k : nat) (z : Z) :
  length A = n * m → i < n → k < m →
  z = Z.of_nat (i * m + k) →
  load A z = Ok (at2 A m i k).
Proof.
  intros Hlen Hi Hk ->.
  destruct (lookup_lt_is_Some_2 A (i * m + k)) as [v Hv]; [nia|].
  unfold Ir.at2. rewrite Hv. by apply (load_ok A (i * m + k)).
Qed.

(** One row of the default schedule. *)
Lemma rowsum_default_row (n m i : nat) (A B1 : list T) :
  length A = n * m → i < n → i < length B1 →
  (B ← store B1 (Z.of_nat i) zero;
   for_ 0 (Z.of_nat m) (λ k B,
     b ← load B (Z.of_nat i);
     a ← load A ((Z.of_nat i * Z.of_nat m) + k)%Z;
     store B (Z.of_nat i) (add b a)) B)
  = Ok (<[i := rowsum_decl A m i]> B1).
Proof.
  intros HA Hi HB.
  rewrite (store_ok B1 i) by done. cbn.
  rewrite (for_update_in_place m _ (λ k x, add x (at2 A m i k)) i _ _ zero).
  - rewrite list_insert_insert_eq. do 2 f_equal.
    rewrite (fold_steps_sum (λ _, true)), add_zero_l.
    apply bigsum_where_all.
  - done.
  - by apply list_lookup_insert_eq.
  - intros k B2 x Hk Hlen Hx.
    rewrite (load_ok B2 i _ x) by done. cbn.
    rewrite (load_at2 A n m i k) by (done || lia). cbn.
    apply store_ok; [done|]. by apply lookup_lt_Some in Hx.
Qed.

Lemma rowsum_default_ok (n m : nat) (A B : list T) :
  length A = n * m → length B = n →
  rowsum_default add zero (Z.of_nat n) (Z.of_nat m) A B
  = Ok (rowsum_decl A m <$> seq 0 n).
Proof.
  intros HA HB. unfold rowsum_default.
  edestruct (for_writes n (Z.of_nat n) (λ i p, p = i) (rowsum_decl A m))
    as (B' & -> & Hw); [done| |].
  - intros i B1 Hi Hlen. eexists. split.
    + apply (rowsum_default_row n m i A B1); [done|done|lia].
    + apply writes_cell.
  - f_equal. rewrite <- HB. eapply writes_all; [exact Hw|].
    intros p Hp. exists p. split; [lia|done].
Qed.

(** *** The factored schedule *)

Lemma quot_ceil (m w : nat) :
  0 < w →
  ((Z.of_nat m + Z.of_nat (w - 1)) ÷ Z.of_nat w)%Z
  = Z.of_nat ((m + (w - 1)) / w).
Proof.
  intros Hw. rewrite Z.quot_div_nonneg by lia.
  by rewrite Nat2Z.inj_div, Nat2Z.inj_add.
Qed.

(** The table [B.rf] holds once it is produced: cell [ki*n + i] is
    [B.rf(ki, i)]. *)
Definition B_rf_table (A : list T) (n m : nat) : list T :=
  (λ p, B_rf add zero A m (p / n) (p mod n)) <$> seq 0 (16 * n).

Lemma B_rf_table_lookup (A : list T) (n m ki i : nat) :
  ki < 16 → i < n →
  B_rf_table A n m !! (ki * n + i) = Some (B_rf add zero A m ki i).
Proof.
  intros Hki Hi. unfold B_rf_table.
  rewrite list_lookup_fmap, lookup_seq_lt by nia. simpl.
  rewrite Nat.div_add_l, Nat.div_small, Nat.add_0_r by lia.
  by rewrite Nat.add_comm, Nat.Div0.mod_add, Nat.mod_small by lia.
Qed.

(** One cell of [B.rf]. *)
Lemma produce_B_rf_cell (n m ki i : nat) (A Brf1 : list T) :
  length A = n * m → i < n → ki * n + i < length Brf1 →
  (Brf ← store Brf1 ((Z.of_nat ki * Z.of_nat n) + Z.of_nat i)%Z zero;
   for_ 0 ((Z.of_nat m + 15) ÷ 16) (λ ko Brf,
     if (Z.of_nat ki <? (Z.of_nat m - (ko * 16)))%Z then
       r ← load Brf ((Z.of_nat ki * Z.of_nat n) + Z.of_nat i)%Z;
       a ← load A ((Z.of_nat ki + (Z.of_nat i * Z.of_nat m)) + (ko * 16))%Z;
       store Brf ((Z.of_nat ki * Z.of_nat n) + Z.of_nat i)%Z (add r a)
     else Ok Brf) Brf)
  = Ok (<[ki * n + i := B_rf add zero A m ki i]> Brf1).
Proof.
  intros HA Hi HB.
  rewrite (store_ok Brf1 (ki * n + i)) by (done || lia). cbn.
  rewrite (for_update_in_place ((m + 15) / 16) _
             (λ ko x, if ko * 16 + ki <? m
                      then add x (at2 A m i (ko * 16 + ki)) else x)
             (ki * n + i) _ _ zero).
  - rewrite list_insert_insert_eq. do 2 f_equal.
    by rewrite fold_steps_sum, add_zero_l.
  - apply (quot_ceil m 16). lia.
  - by apply list_lookup_insert_eq.
  - intros ko B2 x Hko Hlen Hx.
    destruct (Nat.ltb_spec (ko * 16 + ki) m) as [Hlt|Hge];
      destruct (Z.ltb_spec (Z.of_nat ki)
                  (Z.of_nat m - Z.of_nat ko * 16)) as [Hlt'|Hge'];
      try lia.
    + rewrite (load_ok B2 (ki * n + i) _ x) by (done || lia). cbn.
      rewrite (load_at2 A n m i (ko * 16 + ki)) by (done || lia). cbn.
      apply store_ok; [lia|]. by apply lookup_lt_Some in Hx.
    + by rewrite list_insert_id.
Qed.

Lemma produce_B_rf_ok (n m : nat) (A Brf : list T) :
  length A = n * m → length Brf = 16 * n →
  produce_B_rf add zero (Z.of_nat n) (Z.of_nat m) A Brf
  = Ok (B_rf_table A n m).
Proof.
  intros HA HB. unfold produce_B_rf.
  set (F := λ p, B_rf add zero A m (p / n) (p mod n)).
  edestruct (for_writes 16 16 (λ ki p, ∃ i, i < n ∧ p = ki * n + i) F)
    as (B' & -> & Hw); [done| |].
  - intros ki B1 Hki Hlen1. cbv beta.
    apply (for_writes n (Z.of_nat n) (λ i p, p = ki * n + i) F); [done|].
    intros i B2 Hi Hlen2. eexists. split.
    + apply (produce_B_rf_cell n m ki i A B2); [done|done|nia].
    + replace (B_rf add zero A m ki i) with (F (ki * n + i)).
      * apply writes_cell.
      * unfold F.
        rewrite Nat.div_add_l, Nat.div_small, Nat.add_0_r by lia.
        by rewrite Nat.add_comm, Nat.Div0.mod_add, Nat.mod_small by lia.
  - f_equal. unfold B_rf_table. rewrite <- HB.
    eapply writes_all; [exact Hw|].
    intros p Hp. rewrite HB in Hp.
    assert (0 < n) as Hn by lia.
    exists (p / n). split; [apply Nat.Div0.div_lt_upper_bound; lia|].
    exists (p mod n). split; [by apply Nat.mod_upper_bound; lia|].
    rewrite (Nat.div_mod p n) at 1 by lia. lia.
Qed.

(** One cell of [B], read from the produced table. *)
Lemma produce_B_cell (n m i : nat) (A B1 : list T) :
  i < n → i < length B1 →
  (B ← store B1 (Z.of_nat i) zero;
   for_ 0 16 (λ kiv B,
     b ← load B (Z.of_nat i);
     r ← load (B_rf_table A n m) (Z.of_nat i + (kiv * Z.of_nat n))%Z;
     store B (Z.of_nat i) (add b r)) B)
  = Ok (<[i := rowsum_rf add zero A m i]> B1).
Proof.
  intros Hi HB.
  rewrite (store_ok B1 i) by done. cbn.
  rewrite (for_update_in_place 16 _
             (λ ki x, add x (B_rf add zero A m ki i)) i _ _ zero).
  - (* sixteen additions starting from [zero]: the sum over [ki] *)
    rewrite list_insert_insert_eq. reflexivity.
  - done.
  - by apply list_lookup_insert_eq.
  - intros ki B2 x Hki Hlen Hx.
    rewrite (load_ok B2 i _ x) by done. cbn.
    rewrite (load_ok _ (ki * n + i) _ (B_rf add zero A m ki i))
      by (lia || by apply B_rf_table_lookup). cbn.
    apply store_ok; [done|]. by apply lookup_lt_Some in Hx.
Qed.

Lemma produce_B_ok (n m : nat) (A B : list T) :
  length B = n →
  produce_B add zero (Z.of_nat n) (B_rf_table A n m) B
  = Ok (rowsum_rf add zero A m <$> seq 0 n).
Proof.
  intros HB. unfold produce_B.
  edestruct (for_writes n (Z.of_nat n) (λ i p, p = i)
               (rowsum_rf add zero A m))
    as (B' & -> & Hw); [done| |].
  - intros i B1 Hi Hlen. eexists. split.
    + apply (produce_B_cell n m i A B1); [done|lia].
    + apply writes_cell.
  - f_equal. rewrite <- HB. eapply writes_all; [exact Hw|].
    intros p Hp. exists p. split; [lia|done].
Qed.

Lemma rowsum_rfactor_ok (n m : nat) (A Brf B : list T) :
  length A = n * m → length Brf = 16 * n → length B = n →
  rowsum_rfactor add zero (Z.of_nat n) (Z.of_nat m) A Brf B
  = Ok (B_rf_table A n m, rowsum_rf add zero A m <$> seq 0 n).
Proof.
  intros HA HBrf HB. unfold rowsum_rfactor.
  rewrite produce_B_rf_ok, bind_Ok by done.
  by rewrite produce_B_ok, bind_Ok.
Qed.

(** *** The split schedule *)

(** One (outer, inner) pair of the split row axis: row [io*32 + ii] is
    summed when it exists, nothing happens when it does not. *)
Lemma rowsum_split_row (n m io ii : nat) (A B1 : list T) :
  length A = n * m → ii < 32 → length B1 = n →
  rowsum_split_body add zero (Z.of_nat n) (Z.of_nat m) A
    (Z.of_nat io) (Z.of_nat ii) B1
  = Ok (if io * 32 + ii <? n
        then <[io * 32 + ii := rowsum_decl A m (io * 32 + ii)]> B1
        else B1).
Proof.
  intros HA Hii HB. unfold rowsum_split_body.
  set (row := io * 32 + ii).
  destruct (Nat.ltb_spec row n) as [Hrow|Hrow];
    destruct (Z.ltb_spec (Z.of_nat io * 32) (Z.of_nat n - Z.of_nat ii))
      as [Hz|Hz]; try lia.
  - rewrite (store_ok B1 row) by lia. rewrite bind_Ok.
    rewrite (for_update_in_place ((m + 15) / 16) _
               (λ ko x, add x (bigsum_where (λ ki, ko * 16 + ki <? m)
                                 (λ ki, at2 A m row (ko * 16 + ki)) 16))
               row _ _ zero).
    + rewrite list_insert_insert_eq. do 2 f_equal.
      rewrite (fold_steps_sum (λ _, true)), add_zero_l, bigsum_where_all.
      apply bigsum_split; [done..|].
      pose proof (Nat.div_mod (m + 15) 16 ltac:(lia)).
      pose proof (Nat.mod_upper_bound (m + 15) 16 ltac:(lia)). lia.
    + apply (quot_ceil m 16). lia.
    + apply list_lookup_insert_eq. lia.
    + intros ko B2 x Hko Hlen Hx.
      rewrite <- fold_steps_sum.
      apply (for_update_in_place 16); [done|done|].
      intros ki B3 y Hki Hlen3 Hy.
      destruct (Nat.ltb_spec (ko * 16 + ki) m) as [Hlt|Hge];
        destruct (Z.ltb_spec (Z.of_nat ko * 16)
                    (Z.of_nat m - Z.of_nat ki)) as [Hlt'|Hge'];
        try lia.
      * rewrite (load_ok B3 row _ y) by (done || lia). rewrite bind_Ok.
        rewrite (load_at2 A n m row (ko * 16 + ki)) by (done || lia).
        rewrite bind_Ok.
        apply store_ok; [lia|]. by apply lookup_lt_Some in Hy.
      * by rewrite list_insert_id.
  - rewrite bind_Ok. apply for_skip. intros ko B2.
    apply for_skip. by intros ki B3.
Qed.

Lemma rowsum_split_ok (n m : nat) (A B : list T) :
  length A = n * m → length B = n →
  rowsum_split add zero (Z.of_nat n) (Z.of_nat m) A B
  = Ok (rowsum_decl A m <$> seq 0 n).
Proof.
  intros HA HB. unfold rowsum_split.
  edestruct (for_writes ((n + 31) / 32) ((Z.of_nat n + 31) ÷ 32)
               (λ io p, ∃ ii, ii < 32 ∧ p = io * 32 + ii ∧ p < n)
               (rowsum_decl A m))
    as (B' & -> & Hw); [apply (quot_ceil n 32); lia| |].
  - intros io B1 Hio Hlen1. cbv beta.
    apply (for_writes 32 32 (λ ii p, p = io * 32 + ii ∧ p < n)
             (rowsum_decl A m)); [done|].
    intros ii B2 Hii Hlen2. eexists. split.
    + apply (rowsum_split_row n m io ii A B2); [done|done|lia].
    + destruct (Nat.ltb_spec (io * 32 + ii) n) as [Hrow|Hrow].
      * eapply writes_weaken; [|apply writes_cell].
        intros p. simpl. split; [intros ->; done | by intros [-> _]].
      * eapply writes_weaken; [|apply writes_nothing].
        intros p. simpl. split; [done | intros [-> ?]; lia].
  - f_equal. rewrite <- HB. eapply writes_all; [exact Hw|].
    intros p Hp. rewrite HB in Hp.
    pose proof (Nat.div_mod p 32 ltac:(lia)).
    pose proof (Nat.mod_upper_bound p 32 ltac:(lia)).
    pose proof (Nat.div_mod (n + 31) 32 ltac:(lia)).
    pose proof (Nat.mod_upper_bound (n + 31) 32 ltac:(lia)).
    exists (p / 32). split; [lia|].
    exists (p mod 32). split; [lia|]. split; [lia|done].
Qed.

Lemma rowsum_bound_ok (order : list (nat * nat)) (n m : nat)
    (A B : list T) :
  length A = n * m → length B = n →
  order ≡ₚ thread_grid ((n + 31) / 32) 32 →
  rowsum_bound add zero order (Z.of_nat n) (Z.of_nat m) A B
  = Ok (rowsum_decl A m <$> seq 0 n).
Proof.
  intros HA HB Horder. unfold rowsum_bound.
  edestruct (run_threads_writes order
               (λ bx tx p, p = bx * 32 + tx ∧ p < n) (rowsum_decl A m))
    as (B' & -> & Hw).
  - intros bx tx B1 Hin Hlen.
    rewrite Horder in Hin. apply elem_of_thread_grid in Hin as [Hbx Htx].
    eexists. split.
    + apply (rowsum_split_row n m bx tx A B1); [done|done|lia].
    + destruct (Nat.ltb_spec (bx * 32 + tx) n).
      * eapply writes_weaken; [|apply writes_cell].
        intros p. simpl. split; [intros ->; done | by intros [-> _]].
      * eapply writes_weaken; [|apply writes_nothing].
        intros p. simpl. split; [done | intros [-> ?]; lia].
  - f_equal. rewrite <- HB. eapply writes_all; [exact Hw|].
    intros p Hp. rewrite HB in Hp.
    pose proof (Nat.div_mod p 32 ltac:(lia)).
    pose proof (Nat.mod_upper_bound p 32 ltac:(lia)).
    pose proof (Nat.div_mod (n + 31) 32 ltac:(lia)).
    pose proof (Nat.mod_upper_bound (n + 31) 32 ltac:(lia)).
    exists (p / 32), (p mod 32). split; [|lia].
    rewrite Horder. apply elem_of_thread_grid. lia.
Qed.

(** *** The generated kernel *)

Lemma for_fold {S : Type} (K : nat) (extent : Z) (step : nat → S → S)
    (body : Z → S → result exn S) (v : S) :
  extent = Z.of_nat K →
  (∀ k x, k < K → body (Z.of_nat k) x = Ok (step k x)) →
  for_ 0 extent body v = Ok (fold_steps step v K).
Proof.
  intros -> Hbody. unfold for_. rewrite Nat2Z.id.
  induction K as [|K IH]; simpl; [done|].
  rewrite IH by (intros; apply Hbody; lia). rewrite bind_Ok, Z.add_0_l.
  apply Hbody. lia.
Qed.

(** The sizes for which the [int] indices of the kernel stay in range. *)
Definition fits_int (n m : nat) : Prop :=
  (Z.of_nat n + 31 < 2 ^ 31 ∧ Z.of_nat m + 15 < 2 ^ 31
   ∧ Z.of_nat n * Z.of_nat m < 2 ^ 31)%Z.

Lemma block_row_bound (n bx ty : nat) :
  bx < (n + 31) / 32 → ty < 32 → bx * 32 + ty < n + 32.
Proof.
  intros Hbx Hty.
  pose proof (Nat.div_mod (n + 31) 32 ltac:(lia)).
  pose proof (Nat.mod_upper_bound (n + 31) 32 ltac:(lia)). lia.
Qed.

Lemma row_guard (n bx ty : nat) :
  fits_int n 0 → bx < (n + 31) / 32 → ty < 32 →
  (imul (Z.of_nat bx) 32 <? isub (Z.of_nat n) (Z.of_nat ty))%Z
  = (bx * 32 + ty <? n).
Proof.
  intros (Hn & _ & _) Hbx Hty.
  pose proof (block_row_bound n bx ty Hbx Hty).
  unfold imul, isub. rewrite !int32_id by lia.
  destruct (Z.ltb_spec (Z.of_nat bx * 32) (Z.of_nat n - Z.of_nat ty));
    destruct (Nat.ltb_spec (bx * 32 + ty) n); lia.
Qed.

Lemma fits_int_rows (n m : nat) : fits_int n m → fits_int n 0.
Proof. intros (? & ? & ?). unfold fits_int. lia. Qed.

(** The accumulator of thread [(ty, tx)] of block [bx]: the entry of
    [B.rf] for its row, or [zero] when the row does not exist. *)
Lemma kernel0_partial_ok (n m bx ty tx : nat) (A : list T) :
  fits_int n m → length A = n * m →
  bx < (n + 31) / 32 → ty < 32 → tx < 16 →
  kernel0_partial add zero (Z.of_nat n) (Z.of_nat m) A
    (Z.of_nat bx) (Z.of_nat ty) (Z.of_nat tx)
  = Ok (if bx * 32 + ty <? n
        then B_rf add zero A m tx (bx * 32 + ty) else zero).
Proof.
  intros Hfits HA Hbx Hty Htx. unfold kernel0_partial.
  rewrite (row_guard n bx ty) by eauto using fits_int_rows.
  destruct Hfits as (Hn & Hm & Hnm).
  pose proof (block_row_bound n bx ty Hbx Hty) as Hrow.
  pose proof (Nat.div_mod (m + 15) 16 ltac:(lia)) as Hdm.
  pose proof (Nat.mod_upper_bound (m + 15) 16 ltac:(lia)) as Hmod.
  assert (idiv (iadd 15 (Z.of_nat m)) 16 = Z.of_nat ((m + 15) / 16)) as ->.
  { assert ((Z.of_nat m + 15) ÷ 16 = Z.of_nat ((m + 15) / 16))%Z as Hq
      by (apply (quot_ceil m 16); lia).
    unfold idiv, iadd. rewrite (int32_id (15 + Z.of_nat m)) by lia.
    rewrite Z.add_comm, Hq. apply int32_id. lia. }
  destruct (Nat.ltb_spec (bx * 32 + ty) n) as [Hlt|Hge].
  - set (row := bx * 32 + ty) in *.
    rewrite (for_fold ((m + 15) / 16) _
               (λ ko x, if ko * 16 + tx <? m
                        then add x (at2 A m row (ko * 16 + tx)) else x));
      [|done|].
    + by rewrite fold_steps_sum, add_zero_l.
    + intros ko x Hko.
      assert (imul (Z.of_nat ko) 16 = Z.of_nat (ko * 16)) as ->.
      { unfold imul. rewrite int32_id; lia. }
      assert (isub (Z.of_nat m) (Z.of_nat (ko * 16))
              = Z.of_nat m - Z.of_nat (ko * 16))%Z as ->.
      { unfold isub. rewrite int32_id; lia. }
      destruct (Nat.ltb_spec (ko * 16 + tx) m) as [Hcol|Hcol];
        destruct (Z.ltb_spec (Z.of_nat tx)
                    (Z.of_nat m - Z.of_nat (ko * 16))) as [Hz|Hz];
        try lia; [|done].
      assert (Z.of_nat row * Z.of_nat m + Z.of_nat (ko * 16 + tx)
              < Z.of_nat n * Z.of_nat m)%Z as Hidx by nia.
      assert (iadd (iadd (imul (iadd (imul (Z.of_nat bx) 32) (Z.of_nat ty))
                            (Z.of_nat m)) (Z.of_nat tx)) (Z.of_nat (ko * 16))
              = Z.of_nat (row * m + (ko * 16 + tx))) as ->.
      { unfold iadd, imul.
        rewrite (int32_id (Z.of_nat bx * 32)) by lia.
        rewrite (int32_id (Z.of_nat bx * 32 + Z.of_nat ty)) by lia.
        replace (Z.of_nat bx * 32 + Z.of_nat ty)%Z with (Z.of_nat row)
          by (unfold row; lia).
        rewrite (int32_id (Z.of_nat row * Z.of_nat m)) by nia.
        rewrite (int32_id (Z.of_nat row * Z.of_nat m + Z.of_nat tx)) by nia.
        rewrite int32_id by nia. lia. }
      by rewrite (load_at2 A n m row (ko * 16 + tx)) by (done || lia).
  - apply for_skip. by intros.
Qed.

(** What [red_buf0] holds after the first barrier, cell by cell. *)
Definition filled (n m bx : nat) (A : list T) (c : nat) : T :=
  if bx * 32 + c / 16 <? n
  then B_rf add zero A m (c mod 16) (bx * 32 + c / 16) else zero.

Lemma cell_coordinates (ty tx : nat) :
  tx < 16 → (ty * 16 + tx) / 16 = ty ∧ (ty * 16 + tx) mod 16 = tx.
Proof.
  intros Htx. split.
  - rewrite Nat.div_add_l, Nat.div_small by lia. lia.
  - rewrite Nat.add_comm, Nat.Div0.mod_add. by apply Nat.mod_small.
Qed.

Lemma cell_index (ty tx : nat) :
  ty < 32 → tx < 16 →
  iadd (imul (Z.of_nat ty) 16) (Z.of_nat tx) = Z.of_nat (ty * 16 + tx).
Proof.
  intros Hty Htx. unfold iadd, imul.
  rewrite (int32_id (Z.of_nat ty * 16)) by lia. rewrite int32_id; lia.
Qed.

Lemma kernel0_fill_ok (n m bx ty tx : nat) (A red : list T) :
  fits_int n m → length A = n * m → length red = 512 →
  bx < (n + 31) / 32 → ty < 32 → tx < 16 →
  kernel0_fill add zero (Z.of_nat n) (Z.of_nat m) A (Z.of_nat bx)
    (Z.of_nat ty) (Z.of_nat tx) red
  = Ok (<[ty * 16 + tx := filled n m bx A (ty * 16 + tx)]> red).
Proof.
  intros Hfits HA Hred Hbx Hty Htx. unfold kernel0_fill.
  rewrite (kernel0_partial_ok n m bx ty tx) by done. rewrite bind_Ok.
  rewrite (row_guard n bx ty) by eauto using fits_int_rows.
  rewrite cell_index by done.
  rewrite (store_ok red (ty * 16 + tx)) by (done || lia).
  unfold filled. destruct (cell_coordinates ty tx Htx) as [-> ->].
  by destruct (bx * 32 + ty <? n).
Qed.

Lemma kernel0_fill_phase (threads : list (nat * nat)) (n m bx : nat)
    (A shared : list T) :
  fits_int n m → length A = n * m → length shared = 512 →
  bx < (n + 31) / 32 → threads ≡ₚ thread_grid 32 16 →
  run_threads threads
    (kernel0_fill add zero (Z.of_nat n) (Z.of_nat m) A (Z.of_nat bx)) shared
  = Ok (filled n m bx A <$> seq 0 512).
Proof.
  intros Hfits HA Hshared Hbx Hthreads.
  edestruct (run_threads_writes threads (λ ty tx p, p = ty * 16 + tx)
               (filled n m bx A))
    as (red & -> & Hw).
  - intros ty tx red1 Hin Hlen.
    rewrite Hthreads in Hin. apply elem_of_thread_grid in Hin as [Hty Htx].
    eexists. split.
    + apply (kernel0_fill_ok n m bx ty tx); (done || lia).
    + apply writes_cell.
  - f_equal. rewrite <- Hshared. eapply writes_all; [exact Hw|].
    intros p Hp. rewrite Hshared in Hp.
    pose proof (Nat.div_mod p 16 ltac:(lia)).
    pose proof (Nat.mod_upper_bound p 16 ltac:(lia)).
    exists (p / 16), (p mod 16). split; [|lia].
    rewrite Hthreads. apply elem_of_thread_grid. lia.
Qed.

(** One statement of the reduction, on every row at once. *)
Definition halve (offset : nat) (G : nat → T) (c : nat) : T :=
  if c mod 16 <? 8 then add (G c) (G (c + offset)) else G c.

Lemma halve_row (offset : nat) (G : nat → T) (ty t : nat) :
  t < 16 →
  halve offset G (ty * 16 + t)
  = if t <? 8 then add (G (ty * 16 + t)) (G (ty * 16 + (t + offset)))
    else G (ty * 16 + t).
Proof.
  intros Ht. unfold halve.
  destruct (cell_coordinates ty t Ht) as [_ ->].
  by rewrite Nat.add_assoc.
Qed.

Lemma kernel0_reduce_ok (offset ty tx : nat) (G : nat → T) (red : list T) :
  offset ≤ 8 → ty < 32 → tx < 16 → length red = 512 →
  kernel0_reduce add (Z.of_nat offset) (G <$> seq 0 512)
    (Z.of_nat ty) (Z.of_nat tx) red
  = Ok (if tx <? 8
        then <[ty * 16 + tx := halve offset G (ty * 16 + tx)]> red
        else red).
Proof.
  intros Hoff Hty Htx Hred. unfold kernel0_reduce.
  destruct (Nat.ltb_spec tx 8) as [Hlt|Hge];
    destruct (Z.ltb_spec (Z.of_nat tx) 8) as [Hz|Hz]; try lia; [|done].
  rewrite cell_index by done.
  assert (iadd (iadd (Z.of_nat offset) (imul (Z.of_nat ty) 16)) (Z.of_nat tx)
          = Z.of_nat (ty * 16 + tx + offset)) as ->.
  { unfold iadd, imul. rewrite (int32_id (Z.of_nat ty * 16)) by lia.
    rewrite (int32_id (Z.of_nat offset + Z.of_nat ty * 16)) by lia.
    rewrite int32_id; lia. }
  assert (∀ c, c < 512 → (G <$> seq 0 512) !! c = Some (G c)) as Hold.
  { intros c Hc. by rewrite list_lookup_fmap, lookup_seq_lt by lia. }
  rewrite (load_ok _ _ _ _ eq_refl (Hold (ty * 16 + tx) ltac:(lia))).
  rewrite bind_Ok.
  rewrite (load_ok _ _ _ _ eq_refl (Hold (ty * 16 + tx + offset) ltac:(lia))).
  rewrite bind_Ok, (store_ok red (ty * 16 + tx)) by (done || lia).
  unfold halve. destruct (cell_coordinates ty tx Htx) as [_ ->].
  by destruct (Nat.ltb_spec tx 8); [|lia].
Qed.

Lemma lockstep_ok (offset : nat) (G : nat → T) :
  offset ≤ 8 →
  lockstep add (Z.of_nat offset) (G <$> seq 0 512)
  = Ok (halve offset G <$> seq 0 512).
Proof.
  intros Hoff. unfold lockstep.
  edestruct (run_threads_writes (thread_grid 32 16)
               (λ ty tx p, p = ty * 16 + tx ∧ tx < 8) (halve offset G))
    as (red & -> & Hw).
  - intros ty tx red1 Hin Hlen.
    apply elem_of_thread_grid in Hin as [Hty Htx].
    rewrite length_fmap, length_seq in Hlen.
    eexists. split; [by apply kernel0_reduce_ok|].
    destruct (Nat.ltb_spec tx 8).
    + eapply writes_weaken; [|apply writes_cell].
      intros p. simpl. split; [intros ->; done | by intros [-> _]].
    + eapply writes_weaken; [|apply writes_nothing].
      intros p. simpl. split; [done | intros [_ ?]; lia].
  - f_equal. eapply writes_table; [exact Hw|].
    intros p Hp.
    pose proof (Nat.div_mod p 16 ltac:(lia)).
    pose proof (Nat.mod_upper_bound p 16 ltac:(lia)).
    destruct (Nat.ltb_spec (p mod 16) 8) as [Hlow|Hhigh].
    + left. exists (p / 16), (p mod 16). split; [|lia].
      apply elem_of_thread_grid. lia.
    + right. unfold halve. by destruct (Nat.ltb_spec (p mod 16) 8); [lia|].
Qed.

(** After the four statements the first cell of a row holds the sum of
    the sixteen cells the row had. *)
Lemma tree_sum (G : nat → T) (ty : nat) :
  halve 1 (halve 2 (halve 4 (halve 8 G))) (ty * 16)
  = bigsum (λ t, G (ty * 16 + t)) 16.
Proof.
  rewrite <- (Nat.add_0_r (ty * 16)) at 1.
  repeat (rewrite halve_row by lia; cbn [Nat.ltb Nat.leb Nat.add]).
  set (r := λ t, G (ty * 16 + t)).
  set (r1 := λ t, add (r t) (r (t + 8))).
  set (r2 := λ t, add (r1 t) (r1 (t + 4))).
  set (r3 := λ t, add (r2 t) (r2 (t + 2))).
  transitivity (bigsum r1 8);
    [|exact (bigsum_fold_half add zero add_assoc add_comm add_zero_l r 8)].
  transitivity (bigsum r2 4);
    [|exact (bigsum_fold_half add zero add_assoc add_comm add_zero_l r1 4)].
  transitivity (bigsum r3 2);
    [|exact (bigsum_fold_half add zero add_assoc add_comm add_zero_l r2 2)].
  cbn [Ir.bigsum]. rewrite add_zero_l. reflexivity.
Qed.

Definition reduced (n m bx : nat) (A : list T) : nat → T :=
  halve 1 (halve 2 (halve 4 (halve 8 (filled n m bx A)))).

Lemma reduced_row (n m bx ty : nat) (A : list T) :
  bx * 32 + ty < n →
  reduced n m bx A (ty * 16) = rowsum_decl A m (bx * 32 + ty).
Proof.
  intros Hrow. unfold reduced. rewrite tree_sum.
  rewrite <- (rowsum_rf_decl add zero) by done. unfold rowsum_rf.
  apply bigsum_ext. intros t Ht. unfold filled.
  destruct (cell_coordinates ty t Ht) as [-> ->].
  by destruct (Nat.ltb_spec (bx * 32 + ty) n); [|lia].
Qed.

Lemma kernel0_store_ok (n m bx ty tx : nat) (A B1 : list T) :
  fits_int n m → length B1 = n →
  bx < (n + 31) / 32 → ty < 32 → tx < 16 →
  kernel0_store (Z.of_nat n) (Z.of_nat bx) (reduced n m bx A <$> seq 0 512)
    (Z.of_nat ty) (Z.of_nat tx) B1
  = Ok (if (bx * 32 + ty <? n) && (tx =? 0)
        then <[bx * 32 + ty := rowsum_decl A m (bx * 32 + ty)]> B1
        else B1).
Proof.
  intros Hfits HB Hbx Hty Htx. unfold kernel0_store.
  rewrite (row_guard n bx ty) by eauto using fits_int_rows.
  destruct Hfits as (Hn & _ & _).
  pose proof (block_row_bound n bx ty Hbx Hty).
  destruct (Nat.ltb_spec (bx * 32 + ty) n) as [Hrow|Hrow]; [|done].
  destruct (Nat.eqb_spec tx 0) as [Htx0|Hne];
    destruct (Z.eqb_spec (Z.of_nat tx) 0) as [Hz|Hz]; try lia;
    [|done]. cbn [andb].
  assert (imul (Z.of_nat ty) 16 = Z.of_nat (ty * 16)) as ->.
  { unfold imul. rewrite int32_id; lia. }
  assert ((reduced n m bx A <$> seq 0 512) !! (ty * 16)
          = Some (reduced n m bx A (ty * 16))) as Hred
    by (by rewrite list_lookup_fmap, lookup_seq_lt by lia).
  rewrite (load_ok _ _ _ _ eq_refl Hred).
  rewrite bind_Ok, reduced_row by done.
  apply store_ok; [|lia].
  unfold iadd, imul. rewrite (int32_id (Z.of_nat bx * 32)) by lia.
  rewrite int32_id; lia.
Qed.

(** One block sums the rows it is in charge of. *)
Lemma kernel0_block_ok (threads : list (nat * nat)) (n m bx : nat)
    (A shared B1 : list T) :
  fits_int n m → length A = n * m → length shared = 512 → length B1 = n →
  bx < (n + 31) / 32 → threads ≡ₚ thread_grid 32 16 →
  ∃ B2,
    kernel0_block add zero threads (Z.of_nat n) (Z.of_nat m) A shared
      (Z.of_nat bx) B1 = Ok B2
    ∧ writes (rowsum_decl A m)
        (λ p, ∃ ty, ty < 32 ∧ p = bx * 32 + ty ∧ p < n) B1 B2.
Proof.
  intros Hfits HA Hshared HB Hbx Hthreads. unfold kernel0_block.
  rewrite (kernel0_fill_phase threads n m bx) by done. rewrite bind_Ok.
  rewrite (lockstep_ok 8), bind_Ok by lia.
  rewrite (lockstep_ok 4), bind_Ok by lia.
  rewrite (lockstep_ok 2), bind_Ok by lia.
  rewrite (lockstep_ok 1), bind_Ok by lia.
  fold (reduced n m bx A).
  edestruct (run_threads_writes threads
               (λ ty tx p, p = bx * 32 + ty ∧ p < n ∧ tx = 0)
               (rowsum_decl A m))
    as (B2 & -> & Hw).
  - intros ty tx B3 Hin Hlen.
    rewrite Hthreads in Hin. apply elem_of_thread_grid in Hin as [Hty Htx].
    eexists. split.
    + apply (kernel0_store_ok n m bx ty tx); (done || lia).
    + destruct (Nat.ltb_spec (bx * 32 + ty) n);
        destruct (Nat.eqb_spec tx 0); simpl.
      * eapply writes_weaken; [|apply writes_cell].
        intros p. simpl. split; [intros ->; done | by intros (-> & _ & _)].
      * eapply writes_weaken; [|apply writes_nothing].
        intros p. simpl. split; [done | intros (_ & _ & ?); lia].
      * eapply writes_weaken; [|apply writes_nothing].
        intros p. simpl. split; [done | intros (-> & ? & _); lia].
      * eapply writes_weaken; [|apply writes_nothing].
        intros p. simpl. split; [done | intros (-> & ? & _); lia].
  - exists B2. split; [done|]. eapply writes_weaken; [|exact Hw].
    intros p. split.
    + intros (ty & tx & Hin & -> & Hp & _).
      rewrite Hthreads in Hin. apply elem_of_thread_grid in Hin as [Hty _].
      by exists ty.
    + intros (ty & Hty & -> & Hp). exists ty, 0. split; [|done].
      rewrite Hthreads. apply elem_of_thread_grid. lia.
Qed.

(** The launch: every row of [b] receives its sum, whatever the order
    of the blocks and of the threads between the barriers, and whatever
    the shared buffers held. *)
Lemma fcuda_ok (blocks : list nat) (threads : list (nat * nat))
    (n m : nat) (shared a b : list T) :
  fits_int n m → length a = n * m → length b = n → length shared = 512 →
  blocks ≡ₚ seq 0 ((n + 31) / 32) → threads ≡ₚ thread_grid 32 16 →
  fcuda add zero blocks threads shared n m a b
  = Ok (rowsum_decl a m <$> seq 0 n).
Proof.
  intros Hfits Ha Hb Hshared Hblocks Hthreads. unfold fcuda.
  rewrite Ha, Hb, !Nat.eqb_refl. simpl. unfold run_blocks.
  edestruct (run_each_writes blocks
               (λ bx p, ∃ ty, ty < 32 ∧ p = bx * 32 + ty ∧ p < n)
               (rowsum_decl a m))
    as (B' & -> & Hw).
  - intros bx B1 Hin Hlen. rewrite Hblocks in Hin.
    apply elem_of_seq in Hin.
    apply (kernel0_block_ok threads n m bx a shared B1);
      (done || lia).
  - f_equal. rewrite <- Hb. eapply writes_all; [exact Hw|].
    intros p Hp. rewrite Hb in Hp.
    pose proof (Nat.div_mod p 32 ltac:(lia)).
    pose proof (Nat.mod_upper_bound p 32 ltac:(lia)).
    pose proof (Nat.div_mod (n + 31) 32 ltac:(lia)).
    pose proof (Nat.mod_upper_bound (n + 31) 32 ltac:(lia)).
    exists (p / 32). split; [rewrite Hblocks; apply elem_of_seq; lia|].
    exists (p mod 32). lia.
Qed.
End RowSumCorrect.

Section VecAdd.
(** Vector addition (getting-started notebook).  The elements and their
    addition are whatever the arrays hold: nothing is asked of [add]. *)
Context {T : Type} (add : T → T → T).

(** *** Default schedule
<<
    for (i, 0, n) { C[i] = (A[i] + B[i]) }
>> *)
Definition vecadd_default (n : Z) (A B C : list T) : result exn (list T) :=
  for_ 0 n (λ i C,
    a ← load A i;
    b ← load B i;
    store C i (add a b)) C.

(** *** After [split] of the axis by factor 64
<<
    for (int bx = 0; bx < ceil(n / 64); ++bx) {
      for (int tx = 0; tx < 64; ++tx) {
        int i = bx * 64 + tx;
        if (i < n) { C[i] = A[i] + B[i]; } } }
>>
    [ceil(n / 64)] is the number of blocks of 64 that cover [n], which
    the lowered loop bounds print as [(n + 63)/64]. *)
Definition ceil_div (n factor : Z) : Z := ((n + (factor - 1)) ÷ factor)%Z.

Definition vecadd_split (n : Z) (A B C : list T) : result exn (list T) :=
  for_ 0 (ceil_div n 64) (λ bx C,
    for_ 0 64 (λ tx C,
      let i := (bx * 64 + tx)%Z in
      if (i <? n)%Z then
        a ← load A i;
        b ← load B i;
        store C i (add a b)
      else Ok C) C) C.

(** *** The generated kernel
<<
    extern "C" __global__ void myadd_kernel0(float* __restrict__ C,
        float* __restrict__ A, float* __restrict__ B, int n) {
      if (((int)blockIdx.x) < (n / 64)) {
        C[((((int)blockIdx.x) * 64) + ((int)threadIdx.x))] =
          (A[((((int)blockIdx.x) * 64) + ((int)threadIdx.x))] +
           B[((((int)blockIdx.x) * 64) + ((int)threadIdx.x))]);
      } else {
        if ((((int)blockIdx.x) * 64) < (n - ((int)threadIdx.x))) {
          C[...] = (A[...] + B[...]);   // same index
        } } }
>> *)
Definition myadd_kernel0 (A B : list T) (n : Z) (blockIdx_x threadIdx_x : Z)
    (C : list T) : result exn (list T) :=
  let idx := int32 (int32 (blockIdx_x * 64) + threadIdx_x) in
  if (blockIdx_x <? int32 (n ÷ 64))%Z then
    a ← load A idx;
    b ← load B idx;
    store C idx (add a b)
  else if (int32 (blockIdx_x * 64) <? int32 (n - threadIdx_x))%Z then
    a ← load A idx;
    b ← load B idx;
    store C idx (add a b)
  else Ok C.

(** The launch of [fadd]: [ceil(n/64)] blocks of 64 threads. *)
Definition grid (n : nat) : list (nat * nat) :=
  thread_grid ((n + 63) / 64) 64.

(** [fadd(a, b, c)]: the host wrapper takes [n] from the shape of its
    arguments, refuses arrays of different shapes and launches the
    kernel, which writes into [c]. *)
Definition fadd (order : list (nat * nat)) (a b c : list T)
    : result exn (list T) :=
  let n := length a in
  if negb (length b =? n) || negb (length c =? n) then Raise ShapeMismatch
  else run_threads order (myadd_kernel0 a b (Z.of_nat n)) c.
End VecAdd.

Section VecAddCorrect.
Context {T : Type} (add : T → T → T).

(** The value cell [p] is to receive; [d] only fills in for cells that
    do not exist. *)
Definition sum_at (d : T) (A B : list T) (p : nat) : T :=
  add (default d (A !! p)) (default d (B !! p)).

Lemma sum_table (d : T) (A B : list T) (n : nat) :
  length A = n → length B = n →
  sum_at d A B <$> seq 0 n = zip_with add A B.
Proof.
  intros HA HB. apply list_eq. intros p.
  rewrite list_lookup_fmap, lookup_zip_with. unfold sum_at.
  destruct (decide (p < n)) as [Hlt|Hge].
  - rewrite lookup_seq_lt by done. simpl.
    destruct (lookup_lt_is_Some_2 A p) as [x ->]; [lia|].
    by destruct (lookup_lt_is_Some_2 B p) as [y ->]; [lia|].
  - rewrite lookup_seq_ge by lia.
    by rewrite (lookup_ge_None_2 A) by lia.
Qed.

(** [C[i] = A[i] + B[i]] at an index inside the three arrays. *)
Lemma vecadd_cell (d : T) (A B C1 : list T) (p : nat) (z : Z) :
  z = Z.of_nat p →
  p < length A → p < length B → p < length C1 →
  (a ← load A z; b ← load B z; store C1 z (add a b))
  = Ok (<[p := sum_at d A B p]> C1).
Proof.
  intros -> HA HB HC. unfold sum_at.
  destruct (lookup_lt_is_Some_2 A p HA) as [x Hx].
  destruct (lookup_lt_is_Some_2 B p HB) as [y Hy].
  rewrite (load_ok A p _ x), bind_Ok by done.
  rewrite (load_ok B p _ y), bind_Ok by done.
  rewrite Hx, Hy. by apply store_ok.
Qed.

Lemma vecadd_default_ok (n : nat) (A B C : list T) :
  length A = n → length B = n → length C = n →
  vecadd_default add (Z.of_nat n) A B C = Ok (zip_with add A B).
Proof.
  intros HA HB HC. unfold vecadd_default.
  destruct C as [|d C']; [by subst n; destruct A, B|].
  rewrite <- (sum_table d A B n) by done.
  edestruct (for_writes n (Z.of_nat n) (λ i p, p = i) (sum_at d A B))
    as (C2 & -> & Hw); [done| |].
  - intros i C1 Hi Hlen. eexists. split.
    + apply (vecadd_cell d A B C1 i); [done|lia..].
    + apply writes_cell.
  - f_equal. rewrite <- HC. eapply writes_all; [exact Hw|].
    intros p Hp. exists p. rewrite HC in Hp. split; [lia|done].
Qed.

Lemma ceil_div_64 (n : nat) :
  ceil_div (Z.of_nat n) 64 = Z.of_nat ((n + 63) / 64).
Proof. apply (quot_ceil n 64). lia. Qed.

Lemma block_cover (n p : nat) :
  p < n → p / 64 < (n + 63) / 64 ∧ p mod 64 < 64 ∧ p = p / 64 * 64 + p mod 64.
Proof.
  intros Hp.
  pose proof (Nat.div_mod p 64 ltac:(lia)).
  pose proof (Nat.mod_upper_bound p 64 ltac:(lia)).
  pose proof (Nat.div_mod (n + 63) 64 ltac:(lia)).
  pose proof (Nat.mod_upper_bound (n + 63) 64 ltac:(lia)).
  lia.
Qed.

Lemma vecadd_split_ok (n : nat) (A B C : list T) :
  length A = n → length B = n → length C = n →
  vecadd_split add (Z.of_nat n) A B C = Ok (zip_with add A B).
Proof.
  intros HA HB HC. unfold vecadd_split.
  destruct C as [|d C']; [by subst n; destruct A, B|].
  rewrite <- (sum_table d A B n) by done.
  edestruct (for_writes ((n + 63) / 64) (ceil_div (Z.of_nat n) 64)
               (λ bx p, ∃ tx, tx < 64 ∧ p = bx * 64 + tx ∧ p < n)
               (sum_at d A B))
    as (C2 & -> & Hw); [apply ceil_div_64| |].
  - intros bx C1 Hbx Hlen1. cbv beta.
    apply (for_writes 64 64 (λ tx p, p = bx * 64 + tx ∧ p < n)
             (sum_at d A B)); [done|].
    intros tx C3 Htx Hlen3. cbv beta zeta.
    destruct (Z.ltb_spec (Z.of_nat bx * 64 + Z.of_nat tx) (Z.of_nat n))
      as [Hlt|Hge]; eexists; split.
    + apply (vecadd_cell d A B C3 (bx * 64 + tx)); lia.
    + eapply writes_weaken; [|apply writes_cell].
      intros p. simpl. split; [intros ->; split; [done|lia] | by intros [-> _]].
    + done.
    + eapply writes_weaken; [|apply writes_nothing].
      intros p. simpl. split; [done | intros [-> ?]; lia].
  - f_equal. rewrite <- HC. eapply writes_all; [exact Hw|].
    intros p Hp. rewrite HC in Hp.
    destruct (block_cover n p Hp) as (? & ? & ?).
    exists (p / 64). split; [done|]. exists (p mod 64). done.
Qed.

(** *** The kernel *)

(** One thread: it sets its own cell when the cell exists. *)
Lemma myadd_kernel0_thread (d : T) (n bx tx : nat) (A B C1 : list T) :
  (Z.of_nat n + 63 < 2 ^ 31)%Z →
  bx < (n + 63) / 64 → tx < 64 →
  length A = n → length B = n → length C1 = n →
  myadd_kernel0 add A B (Z.of_nat n) (Z.of_nat bx) (Z.of_nat tx) C1
  = Ok (if bx * 64 + tx <? n
        then <[bx * 64 + tx := sum_at d A B (bx * 64 + tx)]> C1
        else C1).
Proof.
  intros Hn Hbx Htx HA HB HC. unfold myadd_kernel0.
  pose proof (Nat.div_mod (n + 63) 64 ltac:(lia)).
  pose proof (Nat.mod_upper_bound (n + 63) 64 ltac:(lia)).
  pose proof (Nat.div_mod n 64 ltac:(lia)).
  pose proof (Nat.mod_upper_bound n 64 ltac:(lia)).
  assert (Z.of_nat n ÷ 64 = Z.of_nat (n / 64))%Z as ->.
  { rewrite Z.quot_div_nonneg by lia. by rewrite (Nat2Z.inj_div n 64). }
  rewrite !(int32_id (Z.of_nat bx * 64)) by lia.
  rewrite (int32_id (Z.of_nat (n / 64))) by lia.
  rewrite (int32_id (Z.of_nat n - Z.of_nat tx)) by lia.
  rewrite !(int32_id (Z.of_nat bx * 64 + Z.of_nat tx)) by lia.
  destruct (Nat.ltb_spec (bx * 64 + tx) n) as [Hrow|Hrow];
    destruct (Z.ltb_spec (Z.of_nat bx) (Z.of_nat (n / 64))) as [Hfull|Htail];
    destruct (Z.ltb_spec (Z.of_nat bx * 64) (Z.of_nat n - Z.of_nat tx))
      as [Hin|Hout]; try lia;
    try (apply (vecadd_cell d A B C1 (bx * 64 + tx)); lia).
  done.
Qed.

(** The launch on [n] elements, the threads in any order. *)
Lemma fadd_ok (n : nat) (order : list (nat * nat)) (a b c : list T) :
  (Z.of_nat n + 63 < 2 ^ 31)%Z →
  length a = n → length b = n → length c = n →
  order ≡ₚ grid n →
  fadd add order a b c = Ok (zip_with add a b).
Proof.
  intros Hn Ha Hb Hc Horder. unfold fadd.
  rewrite Ha, Hb, Hc, Nat.eqb_refl. simpl.
  destruct c as [|d c']; [subst n; destruct a, b; try done|].
  { apply Permutation_nil_r in Horder. by subst order. }
  rewrite <- (sum_table d a b n) by done.
  edestruct (run_threads_writes order
               (λ bx tx p, p = bx * 64 + tx ∧ p < n) (sum_at d a b))
    as (C2 & -> & Hw).
  - intros bx tx C1 Hin Hlen.
    rewrite Horder in Hin. apply elem_of_thread_grid in Hin as [Hbx Htx].
    eexists. split.
    + apply (myadd_kernel0_thread d n bx tx); (done || lia).
    + destruct (Nat.ltb_spec (bx * 64 + tx) n).
      * eapply writes_weaken; [|apply writes_cell].
        intros p. simpl. split; [intros ->; done | by intros [-> _]].
      * eapply writes_weaken; [|apply writes_nothing].
        intros p. simpl. split; [done | intros [-> ?]; lia].
  - f_equal. rewrite <- Hc. eapply writes_all; [exact Hw|].
    intros p Hp. rewrite Hc in Hp.
    destruct (block_cover n p Hp) as (? & ? & ?).
    exists (p / 64), (p mod 64). split; [|done].
    rewrite Horder. by apply elem_of_thread_grid.
Qed.
End VecAddCorrect.

(** X21: every loop nest and kernel the notebooks record for the row
    sum and for the vector addition gives what the declaration states.
    For an [n]-by-[m] input, the nest after [rfactor] (first the table
    [B.rf(ki,i)], the sum of [A(i, ko*16+ki)] over the [ko] with
    [ko*16+ki < m], then its sum over [ki]), the nest after the two splits
    (as loops, and bound to blocks and threads run in any order), the
    generated kernel with [B.rf] computed at the thread-bound reduction
    axis (its [int] indices being in range) and the default nest all
    leave in [B] the sum of [A(i,k)] over [k] in [0,m), for every row [i].
    The vector addition split by 64 into [i = bx*64 + tx] under the guard
    [i < n] (as loops, and as the generated kernel run by the threads in
    any order, its [int] indices being in range) computes
    [C[i] = A[i] + B[i]] for every [i] in [0,n), as the unsplit loop
    does. *)
Theorem schedules_preserve_result {T : Type} (add : T → T → T) (zero : T)
    (n m : nat) (A Brf B : list T) (len : nat) (X Y C : list T)
    (rows threads : list (nat * nat))
    (blocks : list nat) (block_threads : list (nat * nat))
    (shared : list T) :
  (∀ x y z, add x (add y z) = add (add x y) z) →
  (∀ x y, add x y = add y x) →
  (∀ x, add zero x = x) →
  length A = n * m → length Brf = 16 * n → length B = n →
  length X = len → length Y = len → length C = len →
  rows ≡ₚ thread_grid ((n + 31) / 32) 32 →
  threads ≡ₚ grid len →
  blocks ≡ₚ seq 0 ((n + 31) / 32) →
  block_threads ≡ₚ thread_grid 32 16 →
  length shared = 512 →
  (∃ Brf',
      rowsum_rfactor add zero (Z.of_nat n) (Z.of_nat m) A Brf B
      = Ok (Brf', rowsum_decl add zero A m <$> seq 0 n)
      ∧ (∀ ki i, ki < 16 → i < n →
           Brf' !! (ki * n + i) = Some (B_rf add zero A m ki i)))
  ∧ (∀ i, rowsum_rf add zero A m i = rowsum_decl add zero A m i)
  ∧ rowsum_split add zero (Z.of_nat n) (Z.of_nat m) A B
    = Ok (rowsum_decl add zero A m <$> seq 0 n)
  ∧ rowsum_bound add zero rows (Z.of_nat n) (Z.of_nat m) A B
    = Ok (rowsum_decl add zero A m <$> seq 0 n)
  ∧ (fits_int n m →
     fcuda add zero blocks block_threads shared n m A B
     = Ok (rowsum_decl add zero A m <$> seq 0 n))
  ∧ rowsum_default add zero (Z.of_nat n) (Z.of_nat m) A B
    = Ok (rowsum_decl add zero A m <$> seq 0 n)
  ∧ vecadd_split add (Z.of_nat len) X Y C = Ok (zip_with add X Y)
  ∧ ((Z.of_nat len + 63 < 2 ^ 31)%Z →
     fadd add threads X Y C = Ok (zip_with add X Y))
  ∧ vecadd_default add (Z.of_nat len) X Y C = Ok (zip_with add X Y).
Proof.
  intros Hassoc Hcomm Hzero HA HBrf HB HX HY HC Hrows Hthreads
    Hblocks Hblock_threads Hshared.
  assert (∀ i, rowsum_rf add zero A m i = rowsum_decl add zero A m i)
    as Hrf by (intros; by apply rowsum_rf_decl).
  split; [|split; [exact Hrf|]].
  2: split; [|split; [|split; [|split; [|split; [|split]]]]].
  - exists (B_rf_table add zero A n m). split.
    + rewrite (rowsum_rfactor_ok add zero) by done. do 2 f_equal.
      apply list_fmap_ext. intros _ i _. apply Hrf.
    + intros ki i Hki Hi. by apply B_rf_table_lookup.
  - by apply rowsum_split_ok.
  - by apply rowsum_bound_ok.
  - intros Hfits. by apply fcuda_ok.
  - by apply rowsum_default_ok.
  - by apply vecadd_split_ok.
  - intros Hlen. by apply (fadd_ok add len).
  - by apply vecadd_default_ok.
Qed.

Lemma schedules_preserve_result_witness :
  let A := Z.of_nat <$> seq 1 (3 * 20) in
  let X := Z.of_nat <$> seq 0 100 in
  let Y := replicate 100 1000%Z in
  (∃ Brf',
      rowsum_rfactor Z.add 0%Z 3 20 A (replicate (16 * 3) 9%Z) [7; 7; 7]%Z
      = Ok (Brf', rowsum_decl Z.add 0%Z A 20 <$> seq 0 3)
      ∧ (∀ ki i, ki < 16 → i < 3 →
           Brf' !! (ki * 3 + i) = Some (B_rf Z.add 0%Z A 20 ki i)))
  ∧ (∀ i, rowsum_rf Z.add 0%Z A 20 i = rowsum_decl Z.add 0%Z A 20 i)
  ∧ rowsum_split Z.add 0%Z 3 20 A [7; 7; 7]%Z
    = Ok (rowsum_decl Z.add 0%Z A 20 <$> seq 0 3)
  ∧ rowsum_bound Z.add 0%Z (thread_grid 1 32) 3 20 A [7; 7; 7]%Z
    = Ok (rowsum_decl Z.add 0%Z A 20 <$> seq 0 3)
  ∧ (fits_int 3 20 →
     fcuda Z.add 0%Z [0] (thread_grid 32 16) (replicate 512 5%Z) 3 20 A
       [7; 7; 7]%Z
     = Ok (rowsum_decl Z.add 0%Z A 20 <$> seq 0 3))
  ∧ rowsum_default Z.add 0%Z 3 20 A [7; 7; 7]%Z
    = Ok (rowsum_decl Z.add 0%Z A 20 <$> seq 0 3)
  ∧ vecadd_split Z.add 100 X Y (replicate 100 0%Z) = Ok (zip_with Z.add X Y)
  ∧ ((100 + 63 < 2 ^ 31)%Z →
     fadd Z.add (grid 100) X Y (replicate 100 0%Z) = Ok (zip_with Z.add X Y))
  ∧ vecadd_default Z.add 100 X Y (replicate 100 0%Z)
    = Ok (zip_with Z.add X Y).
Proof.
  intros A X Y.
  apply (schedules_preserve_result Z.add 0%Z 3 20 A (replicate (16 * 3) 9%Z)
           [7; 7; 7]%Z 100 X Y (replicate 100 0%Z)
           (thread_grid 1 32) (grid 100)
           [0] (thread_grid 32 16) (replicate 512 5%Z));
    first [ reflexivity | intros; lia ].
Defined.

Example rowsum_rfactor_3x20 :
  snd <$> (match rowsum_rfactor Z.add 0%Z 3 20 (Z.of_nat <$> seq 1 60)
                   (replicate 48 9%Z) [7; 7; 7]%Z with
           | Ok r => Some r | Raise _ => None end)
  = Some [210; 610; 1010]%Z.
Proof. vm_compute. reflexivity. Qed.

Example fcuda_40x5 :
  fcuda Z.add 0%Z [1; 0] (rev (thread_grid 32 16)) (replicate 512 77%Z) 40 5
    (Z.of_nat <$> seq 1 200) (replicate 40 9%Z)
  = Ok ((λ i, Z.of_nat (25 * i + 15)) <$> seq 0 40).
Proof. vm_compute. reflexivity. Qed.

Example rowsum_default_short_output :
  rowsum_default Z.add 0%Z 3 20 (Z.of_nat <$> seq 1 60) [7; 7]%Z
  = Raise (OutOfBounds 2).
Proof. vm_compute. reflexivity. Qed.

(** C4: [fadd] on two arrays of 1024 elements leaves their elementwise
    sum in the output array, whatever the output held and in whatever
    order the 16 blocks of 64 threads run. *)
Theorem fadd_elementwise_sum {T : Type} (add : T → T → T)
    (order : list (nat * nat)) (a b c : list T) :
  length a = 1024 → length b = 1024 → length c = 1024 →
  order ≡ₚ grid 1024 →
  fadd add order a b c = Ok (zip_with add a b).
Proof.
  intros Ha Hb Hc Horder. by apply (fadd_ok add 1024).
Qed.

Lemma fadd_elementwise_sum_witness :
  let a := Z.of_nat <$> seq 0 1024 in
  let b := replicate 1024 1000%Z in
  let c := replicate 1024 0%Z in
  length a = 1024 ∧ length b = 1024 ∧ length c = 1024
  ∧ grid 1024 ≡ₚ grid 1024
  ∧ fadd Z.add (grid 1024) a b c = Ok (zip_with Z.add a b).
Proof.
  intros a b c.
  assert (length a = 1024) as Ha by reflexivity.
  assert (length b = 1024) as Hb by reflexivity.
  assert (length c = 1024) as Hc by reflexivity.
  assert (grid 1024 ≡ₚ grid 1024) as Hg by reflexivity.
  split; [exact Ha|]. split; [exact Hb|]. split; [exact Hc|].
  split; [exact Hg|].
  exact (fadd_elementwise_sum Z.add (grid 1024) a b c Ha Hb Hc Hg).
Defined.

Example fadd_tail_block :
  fadd Z.add (rev (grid 100)) (Z.of_nat <$> seq 0 100) (replicate 100 5%Z)
    (replicate 100 0%Z)
  = Ok (Z.of_nat <$> seq 5 100).
Proof. vm_compute. reflexivity. Qed.

Example fadd_shape_mismatch :
  fadd Z.add (grid 4) [1; 2; 3; 4]%Z [1; 2; 3]%Z [0; 0; 0; 0]%Z
  = Raise ShapeMismatch.
Proof. reflexivity. Qed.

(** *** Convolution as a 2D reduction (reduction notebook) *)

Section Conv2d.
Context {T : Type} (add mul : T → T → T) (zero : T).

(** The loop nest printed for the 3-by-3 convolution:
<<
    produce Output {
      for (i, 0, (n + -2)) {
        for (j, 0, (n + -2)) {
          Output[((i*(n + -2)) + j)] = 0.000000f
          for (di, 0, 3) {
            for (dj, 0, 3) {
              Output[((i*(n + -2)) + j)] =
                (Output[((i*(n + -2)) + j)] +
                 (Input[((j + ((i + di)*n)) + dj)]*Filter[((di*3) + dj)]))
    } } } } }
>> *)
Definition produce_Output (n : Z) (Input Filter Output : list T)
    : result exn (list T) :=
  for_ 0 (n + -2) (λ i Output,
    for_ 0 (n + -2) (λ j Output,
      Output ← store Output ((i * (n + -2)) + j)%Z zero;
      for_ 0 3 (λ di Output,
        for_ 0 3 (λ dj Output,
          o ← load Output ((i * (n + -2)) + j)%Z;
          x ← load Input ((j + ((i + di) * n)) + dj)%Z;
          w ← load Filter ((di * 3) + dj)%Z;
          store Output ((i * (n + -2)) + j)%Z (add o (mul x w)))
          Output) Output) Output) Output.

(** Declaration:
    [Output(i, j) = sum over di, dj in [0,3) of
                      Input(i + di, j + dj) * Filter(di, dj)]. *)
Definition Output_decl (Input Filter : list T) (n i j : nat) : T :=
  bigsum add zero (λ di,
    bigsum add zero (λ dj,
      mul (at2 zero Input n (i + di) (j + dj)) (at2 zero Filter 3 di dj)) 3) 3.

(** The [(n-2)]-by-[(n-2)] tensor of the declaration, row by row. *)
Definition Output_table (Input Filter : list T) (n : nat) : list T :=
  (λ p, Output_decl Input Filter n (p / (n - 2)) (p mod (n - 2)))
    <$> seq 0 ((n - 2) * (n - 2)).
End Conv2d.

Section Conv2dCorrect.
Context {T : Type} (add mul : T → T → T) (zero : T).
Hypothesis add_assoc : ∀ x y z, add x (add y z) = add (add x y) z.
Hypothesis add_zero_l : ∀ x, add zero x = x.

#[local] Abbreviation at2 := (at2 zero).
#[local] Abbreviation Output_decl := (Output_decl add mul zero).

(** The nine terms accumulated one by one are the sum of the three row
    sums. *)
Lemma window_sum (t : nat → nat → T) :
  fold_steps (λ di x, fold_steps (λ dj y, add y (t di dj)) x 3) zero 3
  = bigsum add zero (λ di, bigsum add zero (λ dj, t di dj) 3) 3.
Proof.
  cbn [fold_steps bigsum]. by rewrite !add_zero_l, !add_assoc.
Qed.

(** One cell of [Output]. *)
Lemma produce_Output_cell (n i j : nat) (Input Filter O1 : list T) :
  length Input = n * n → length Filter = 9 →
  i + 2 < n → j + 2 < n → i * (n - 2) + j < length O1 →
  (Output ← store O1 ((Z.of_nat i * (Z.of_nat n + -2)) + Z.of_nat j)%Z zero;
   for_ 0 3 (λ di Output,
     for_ 0 3 (λ dj Output,
       o ← load Output ((Z.of_nat i * (Z.of_nat n + -2)) + Z.of_nat j)%Z;
       x ← load Input ((Z.of_nat j + ((Z.of_nat i + di) * Z.of_nat n)) + dj)%Z;
       w ← load Filter ((di * 3) + dj)%Z;
       store Output ((Z.of_nat i * (Z.of_nat n + -2)) + Z.of_nat j)%Z
         (add o (mul x w))) Output) Output)
  = Ok (<[i * (n - 2) + j := Output_decl Input Filter n i j]> O1).
Proof.
  intros HI HF Hi Hj HO.
  assert ((Z.of_nat i * (Z.of_nat n + -2) + Z.of_nat j)%Z
          = Z.of_nat (i * (n - 2) + j)) as -> by nia.
  set (c := i * (n - 2) + j) in *.
  rewrite (store_ok O1 c) by done. rewrite bind_Ok.
  set (t := λ di dj, mul (at2 Input n (i + di) (j + dj)) (at2 Filter 3 di dj)).
  rewrite (for_update_in_place 3 _
             (λ di x, fold_steps (λ dj y, add y (t di dj)) x 3) c _ _ zero).
  - rewrite list_insert_insert_eq. do 2 f_equal. apply window_sum.
  - done.
  - by apply list_lookup_insert_eq.
  - intros di B2 x Hdi Hlen Hx.
    apply (for_update_in_place 3 _ (λ dj y, add y (t di dj)) c); [done|done|].
    intros dj B3 y Hdj Hlen3 Hy.
    rewrite (load_ok B3 c _ y) by done. rewrite bind_Ok.
    rewrite (load_at2 zero Input n n (i + di) (j + dj)) by (done || lia).
    rewrite bind_Ok.
    rewrite (load_at2 zero Filter 3 3 di dj) by (done || lia).
    rewrite bind_Ok.
    apply store_ok; [done|]. by apply lookup_lt_Some in Hy.
Qed.

(** X10: on an [n]-by-[n] input and a 3-by-3 filter the printed loop
    nest fills the [(n-2)]-by-[(n-2)] output with the declared sums and
    makes no access outside a buffer; for [n] below 3 it does nothing. *)
Theorem produce_Output_ok (n : nat) (Input Filter Output : list T) :
  length Input = n * n → length Filter = 9 →
  length Output = (n - 2) * (n - 2) →
  produce_Output add mul zero (Z.of_nat n) Input Filter Output
  = Ok (Output_table add mul zero Input Filter n).
Proof.
  intros HI HF HO. unfold produce_Output, Output_table.
  destruct (decide (n ≤ 2)) as [Hsmall|Hbig].
  { unfold for_ at 1.
    replace (Z.to_nat (Z.of_nat n + -2)) with 0 by lia.
    replace (n - 2) with 0 in * by lia. simpl in *.
    by destruct Output. }
  set (w := n - 2) in *.
  assert ((Z.of_nat n + -2)%Z = Z.of_nat w) as Hw by lia.
  set (F := λ p, Output_decl Input Filter n (p / w) (p mod w)).
  edestruct (for_writes w (Z.of_nat n + -2)
               (λ i p, ∃ j, j < w ∧ p = i * w + j) F)
    as (B' & -> & Hwr); [exact Hw| |].
  - intros i B1 Hi Hlen1. cbv beta.
    edestruct (for_writes w (Z.of_nat n + -2) (λ j p, p = i * w + j) F
                 (λ j Output,
                    Output ← store Output
                      ((Z.of_nat i * (Z.of_nat n + -2)) + j)%Z zero;
                    for_ 0 3 (λ di Output,
                      for_ 0 3 (λ dj Output,
                        o ← load Output
                              ((Z.of_nat i * (Z.of_nat n + -2)) + j)%Z;
                        x ← load Input
                              ((j + ((Z.of_nat i + di) * Z.of_nat n)) + dj)%Z;
                        w ← load Filter ((di * 3) + dj)%Z;
                        store Output ((Z.of_nat i * (Z.of_nat n + -2)) + j)%Z
                          (add o (mul x w))) Output) Output) B1)
      as (B2 & HB2 & Hwr2); [exact Hw| |].
    + intros j B3 Hj Hlen3. eexists. split.
      * apply (produce_Output_cell n i j Input Filter B3); [done|done|lia|lia|].
        fold w. rewrite Hlen3, Hlen1, HO. nia.
      * fold w. replace (Output_decl Input Filter n i j) with (F (i * w + j)).
        -- apply writes_cell.
        -- unfold F. rewrite Nat.div_add_l, Nat.div_small, Nat.add_0_r by lia.
           by rewrite Nat.add_comm, Nat.Div0.mod_add, Nat.mod_small by lia.
    + exists B2. split; [exact HB2|].
      eapply writes_weaken; [|exact Hwr2]. intros p. split.
      * intros (j & Hj & ->). eauto.
      * intros (j & Hj & ->). eauto.
  - f_equal. rewrite <- HO. eapply writes_all; [exact Hwr|].
    intros p Hp. rewrite HO in Hp.
    exists (p / w). split.
    + apply Nat.Div0.div_lt_upper_bound. lia.
    + exists (p mod w). split; [apply Nat.mod_upper_bound; lia|].
      rewrite (Nat.div_mod_eq p w) at 1. lia.
Qed.
End Conv2dCorrect.

Lemma produce_Output_ok_witness :
  length [1; 2; 3; 4; 5; 6; 7; 8; 9]%Z = 3 * 3
  ∧ length [1; 0; 0; 0; 1; 0; 0; 0; 1]%Z = 9
  ∧ length [0]%Z = (3 - 2) * (3 - 2)
  ∧ produce_Output Z.add Z.mul 0%Z 3
      [1; 2; 3; 4; 5; 6; 7; 8; 9]%Z [1; 0; 0; 0; 1; 0; 0; 0; 1]%Z [0]%Z
    = Ok (Output_table Z.add Z.mul 0%Z
            [1; 2; 3; 4; 5; 6; 7; 8; 9]%Z [1; 0; 0; 0; 1; 0; 0; 0; 1]%Z 3).
Proof.
  split; [reflexivity|]. split; [reflexivity|]. split; [reflexivity|].
  apply (produce_Output_ok Z.add Z.mul 0%Z Z.add_assoc Z.add_0_l 3
           [1; 2; 3; 4; 5; 6; 7; 8; 9]%Z [1; 0; 0; 0; 1; 0; 0; 0; 1]%Z
           [0]%Z); reflexivity.
Defined.

(** A 4-by-4 input under the filter that adds the upper left and the
    lower right corner of each window. *)
Example produce_Output_4x4 :
  produce_Output Z.add Z.mul 0%Z 4
    [1; 2; 3; 4; 5; 6; 7; 8; 9; 10; 11; 12; 13; 14; 15; 16]%Z
    [1; 0; 0; 0; 0; 0; 0; 0; 1]%Z [0; 0; 0; 0]%Z
  = Ok [12; 14; 20; 22]%Z.
Proof. vm_compute. reflexivity. Qed.

End Ir.

(** ** The Python callback of the extern notebook *)

Module ExternOp.

Inductive exn : Type :=
| ValueError (msg : string)
| TVMError (msg : string).

Section AddOne.
(** Array elements, and what [x + 1] is on one of them. *)
Context {T : Type} (add1 : T → T).

(** Device arrays are objects reached through handles; the callback
    also prints. *)
Record state : Type := State {
  arrays : gmap nat (list T);
  stdout : list string;
}.

Definition PackedFunc : Type := nat → nat → state → result exn state.

(** [x.asnumpy()]: the contents, copied out. *)
Definition asnumpy (x : nat) (st : state) : result exn (list T) :=
  match arrays st !! x with
  | Some v => Ok v
  | None => Raise (TVMError "invalid array handle")
  end.

(** [tvm.nd.array(arr)]: a new device array holding [arr]. *)
Definition nd_array (arr : list T) (st : state) : nat * state :=
  let h := fresh (dom (arrays st)) in
  (h, State (<[h := arr]> (arrays st)) (stdout st)).

(** [src.copyto(target)]: the target keeps its identity and takes the
    contents of [src]; the shapes must agree. *)
Definition copyto (src target : nat) (st : state) : result exn state :=
  match arrays st !! src, arrays st !! target with
  | Some v, Some w =>
      if length v =? length w
      then Ok (State (<[target := v]> (arrays st)) (stdout st))
      else Raise (ValueError "array shape do not match the shape of NDArray")
  | _, _ => Raise (TVMError "invalid array handle")
  end.

Definition print (line : string) (st : state) : state :=
  State (arrays st) (stdout st ++ [line]).

Definition NDArray_class : string := "<class 'tvm.ndarray.NDArray'>".

Definition my_tvm_addone : PackedFunc := λ x y st,
  let st := print ("my_tvm_addone signatures: " +:+ NDArray_class +:+ ", "
                     +:+ NDArray_class) st in
  v ← asnumpy x st;
  let '(tmp, st) := nd_array (add1 <$> v) st in
  copyto tmp y st.

(** [tvm.register_func(name)(f)]. *)
Definition register_func (name : string) (f : PackedFunc)
    (reg : gmap string PackedFunc) : gmap string PackedFunc :=
  <[name := f]> reg.

(** The built function of the extern stage
    [tvm.extern(A.shape, [A], lambda ins, outs:
       tvm.call_packed("tvm.contrib.my_tvm_addone", ins[0], outs[0]))]
    with [A] of shape [(n,)]: it checks the two shapes and calls the
    function registered under that name on the two arrays. *)
Definition f (reg : gmap string PackedFunc) (n : nat) (a b : nat)
    (st : state) : result exn state :=
  va ← asnumpy a st;
  vb ← asnumpy b st;
  if negb (length va =? n) || negb (length vb =? n) then
    Raise (TVMError "mismatched shape")
  else
    match reg !! "tvm.contrib.my_tvm_addone" with
    | Some packed => packed a b st
    | None => Raise (TVMError "function is not registered")
    end.

Definition notebook_registry : gmap string PackedFunc :=
  register_func "tvm.contrib.my_tvm_addone" my_tvm_addone ∅.

Lemma fresh_handle (st : state) (x : nat) (v : list T) :
  arrays st !! x = Some v → x ≠ fresh (dom (arrays st)).
Proof.
  intros H ->. apply (is_fresh (dom (arrays st))).
  apply elem_of_dom. eauto.
Qed.

(** The callback alone: [y] receives [x + 1], element by element. *)
Lemma my_tvm_addone_writes (x y : nat) (vx vy : list T) (st : state) :
  arrays st !! x = Some vx → arrays st !! y = Some vy →
  length vx = length vy →
  ∃ st', my_tvm_addone x y st = Ok st'
         ∧ arrays st' !! y = Some (add1 <$> vx)
         ∧ (x ≠ y → arrays st' !! x = Some vx).
Proof.
  intros Hx Hy Hlen. unfold my_tvm_addone, asnumpy, print. simpl.
  rewrite Hx, bind_Ok. unfold nd_array, copyto. simpl.
  rewrite lookup_insert_eq.
  rewrite lookup_insert_ne by (symmetry; eapply fresh_handle; eauto).
  rewrite Hy, length_fmap, Hlen, Nat.eqb_refl.
  eexists. split; [reflexivity|]. simpl. split.
  - by rewrite lookup_insert_eq.
  - intros Hne. rewrite lookup_insert_ne by done.
    rewrite lookup_insert_ne by (symmetry; eapply fresh_handle; eauto).
    done.
Qed.

(** C6: after [f(a, b)] on arrays of 1024 elements, [b] holds [a + 1]
    element by element (and [a] is as before), so [b.asnumpy()] and
    [a.asnumpy() + 1] are the same array. *)
Theorem f_adds_one (a b : nat) (va vb : list T) (st : state) :
  arrays st !! a = Some va → arrays st !! b = Some vb →
  length va = 1024 → length vb = 1024 →
  ∃ st', f notebook_registry 1024 a b st = Ok st'
         ∧ arrays st' !! b = Some (add1 <$> va)
         ∧ (a ≠ b → arrays st' !! a = Some va)
         ∧ (a ≠ b →
            ∃ a_np b_np, asnumpy a st' = Ok a_np ∧ asnumpy b st' = Ok b_np
                         ∧ b_np = add1 <$> a_np).
Proof.
  intros Ha Hb Hla Hlb.
  destruct (my_tvm_addone_writes a b va vb st Ha Hb ltac:(congruence))
    as (st' & Hrun & Hb' & Ha').
  exists st'. split; [|split; [done|split; [done|]]].
  - unfold f, asnumpy. rewrite Ha, Hb, !bind_Ok, Hla, Hlb. simpl.
    unfold notebook_registry, register_func.
    by rewrite lookup_insert_eq.
  - intros Hne. exists va, (add1 <$> va). unfold asnumpy.
    by rewrite Hb', (Ha' Hne).
Qed.

(** *** Everything the callback does to the state *)

(** The line the callback prints. *)
Definition signature_line : string :=
  "my_tvm_addone signatures: " +:+ NDArray_class +:+ ", " +:+ NDArray_class.

(** The temporary [tvm.nd.array(x.asnumpy() + 1)] is a new array. *)
Definition temporary (st : state) : nat := fresh (dom (arrays st)).

(** The state after the callback has run on two arrays of one length. *)
Definition after_addone (x y : nat) (vx : list T) (st : state) : state :=
  State (<[y := add1 <$> vx]> (<[temporary st := add1 <$> vx]> (arrays st)))
        (stdout st ++ [signature_line]).

Lemma my_tvm_addone_run (x y : nat) (vx vy : list T) (st : state) :
  arrays st !! x = Some vx → arrays st !! y = Some vy →
  length vx = length vy →
  my_tvm_addone x y st = Ok (after_addone x y vx st).
Proof.
  intros Hx Hy Hlen. unfold my_tvm_addone, asnumpy, print. simpl.
  rewrite Hx, bind_Ok. unfold nd_array, copyto. simpl.
  rewrite lookup_insert_eq.
  rewrite lookup_insert_ne by (symmetry; eapply fresh_handle; eauto).
  by rewrite Hy, length_fmap, Hlen, Nat.eqb_refl.
Qed.

(** On a live output array the callback returns only in that state. *)
Lemma my_tvm_addone_inv (x y : nat) (vy : list T) (st st' : state) :
  arrays st !! y = Some vy →
  my_tvm_addone x y st = Ok st' →
  ∃ vx, arrays st !! x = Some vx ∧ length vx = length vy
        ∧ st' = after_addone x y vx st.
Proof.
  intros Hy Hrun.
  destruct (arrays st !! x) as [vx|] eqn:Hx.
  - destruct (decide (length vx = length vy)) as [Hlen|Hne].
    + rewrite (my_tvm_addone_run x y vx vy) in Hrun by done.
      exists vx. by injection Hrun as <-.
    + exfalso. revert Hrun.
      unfold my_tvm_addone, asnumpy, print. simpl.
      rewrite Hx, bind_Ok. unfold nd_array, copyto. simpl.
      rewrite lookup_insert_eq.
      rewrite lookup_insert_ne by (symmetry; eapply fresh_handle; eauto).
      rewrite Hy, length_fmap.
      by destruct (Nat.eqb_spec (length vx) (length vy)).
  - exfalso. revert Hrun. unfold my_tvm_addone, asnumpy, print. simpl.
    by rewrite Hx.
Qed.

(** X11: on two live arrays the callback returns exactly when they have
    the same length; otherwise it raises. *)
Theorem my_tvm_addone_returns_iff (x y : nat) (vx vy : list T) (st : state) :
  arrays st !! x = Some vx → arrays st !! y = Some vy →
  (∃ st', my_tvm_addone x y st = Ok st') ↔ length vx = length vy.
Proof.
  intros Hx Hy. split.
  - intros [st' Hrun].
    destruct (my_tvm_addone_inv x y vy st st' Hy Hrun) as (vx' & Hx' & Hlen & _).
    congruence.
  - intros Hlen. eexists. by apply (my_tvm_addone_run x y vx vy).
Qed.

(** X12: what a call of the callback leaves behind: one more line on the
    output, one more array (the temporary), and every array other than
    [y] with the contents it had. *)
Theorem my_tvm_addone_frame (x y : nat) (vy : list T) (st st' : state) :
  arrays st !! y = Some vy →
  my_tvm_addone x y st = Ok st' →
  stdout st' = (stdout st ++ [signature_line])%list
  ∧ dom (arrays st') = dom (arrays st) ∪ {[temporary st]}
  ∧ ∀ h, h ≠ y → h ∈ dom (arrays st) → arrays st' !! h = arrays st !! h.
Proof.
  intros Hy Hrun.
  destruct (my_tvm_addone_inv x y vy st st' Hy Hrun) as (vx & Hx & Hlen & ->).
  split; [done|]. split.
  - simpl. rewrite !dom_insert_L.
    assert (y ∈ dom (arrays st)) by (apply elem_of_dom; eauto).
    apply set_eq. intros h.
    rewrite !elem_of_union, !elem_of_singleton. split.
    + intros [->|[->|Hh]]; [by left|by right|by left].
    + intros [Hh| ->]; [by right; right|by right; left].
  - intros h Hne Hh. simpl. rewrite lookup_insert_ne by done.
    apply lookup_insert_ne. intros <-.
    by apply (is_fresh (dom (arrays st))).
Qed.

(** X13: input and output may be one array: [x.asnumpy()] is a copy, so
    the array is incremented in place. *)
Theorem my_tvm_addone_in_place (x : nat) (v : list T) (st : state) :
  arrays st !! x = Some v →
  ∃ st', my_tvm_addone x x st = Ok st'
         ∧ arrays st' !! x = Some (add1 <$> v).
Proof.
  intros Hx. exists (after_addone x x v st). split.
  - by apply (my_tvm_addone_run x x v v).
  - apply lookup_insert_eq.
Qed.

(** The built function on arrays of the declared length. *)
Lemma f_run (n a b : nat) (va vb : list T) (st : state) :
  arrays st !! a = Some va → arrays st !! b = Some vb →
  length va = n → length vb = n →
  f notebook_registry n a b st = Ok (after_addone a b va st).
Proof.
  intros Ha Hb Hla Hlb. unfold f, asnumpy.
  rewrite Ha, Hb, !bind_Ok, Hla, Hlb, Nat.eqb_refl. simpl.
  unfold notebook_registry, register_func. rewrite lookup_insert_eq.
  apply (my_tvm_addone_run a b va vb); congruence.
Qed.

(** X14: two runs in a row, the output of the first being the input of
    the second: [f(a, b); f(b, c)] leaves [a + 1] in [b] and [a + 1 + 1]
    in [c], and [a] as it was. *)
Theorem f_chain (n a b c : nat) (va vb vc : list T) (st : state) :
  a ≠ b → a ≠ c → b ≠ c →
  arrays st !! a = Some va → arrays st !! b = Some vb →
  arrays st !! c = Some vc →
  length va = n → length vb = n → length vc = n →
  ∃ st1 st2,
    f notebook_registry n a b st = Ok st1
    ∧ f notebook_registry n b c st1 = Ok st2
    ∧ arrays st2 !! a = Some va
    ∧ arrays st2 !! b = Some (add1 <$> va)
    ∧ arrays st2 !! c = Some (add1 <$> (add1 <$> va)).
Proof.
  intros Hab Hac Hbc Ha Hb Hc Hla Hlb Hlc.
  pose proof (fresh_handle st a va Ha) as Hfa.
  pose proof (fresh_handle st c vc Hc) as Hfc.
  set (st1 := after_addone a b va st).
  assert (arrays st1 !! a = Some va) as Ha1.
  { simpl. rewrite lookup_insert_ne by done.
    by rewrite lookup_insert_ne by done. }
  assert (arrays st1 !! b = Some (add1 <$> va)) as Hb1
    by apply lookup_insert_eq.
  assert (arrays st1 !! c = Some vc) as Hc1.
  { simpl. rewrite lookup_insert_ne by done.
    by rewrite lookup_insert_ne by done. }
  pose proof (fresh_handle st1 a va Ha1) as Hfa1.
  pose proof (fresh_handle st1 b _ Hb1) as Hfb1.
  exists st1, (after_addone b c (add1 <$> va) st1).
  split; [by apply (f_run n a b va vb)|].
  split; [apply (f_run n b c (add1 <$> va) vc); rewrite ?length_fmap; done|].
  split; [|split].
  - simpl. rewrite lookup_insert_ne by done.
    rewrite lookup_insert_ne by done. exact Ha1.
  - simpl. rewrite lookup_insert_ne by done.
    rewrite lookup_insert_ne by done. exact Hb1.
  - apply lookup_insert_eq.
Qed.
End AddOne.

Definition two_arrays : state (T:=Z) :=
  State {[0 := Z.of_nat <$> seq 0 1024; 1 := replicate 1024 7%Z]} [].

Lemma f_adds_one_witness :
  arrays two_arrays !! 0 = Some (Z.of_nat <$> seq 0 1024)
  ∧ arrays two_arrays !! 1 = Some (replicate 1024 7%Z)
  ∧ length (Z.of_nat <$> seq 0 1024) = 1024
  ∧ length (replicate 1024 7%Z) = 1024
  ∧ ∃ st', f (notebook_registry Z.succ) 1024 0 1 two_arrays = Ok st'
           ∧ arrays st' !! 1 = Some (Z.succ <$> (Z.of_nat <$> seq 0 1024))
           ∧ (0 ≠ 1 → arrays st' !! 0 = Some (Z.of_nat <$> seq 0 1024))
           ∧ (0 ≠ 1 →
              ∃ a_np b_np, asnumpy 0 st' = Ok a_np ∧ asnumpy 1 st' = Ok b_np
                           ∧ b_np = Z.succ <$> a_np).
Proof.
  assert (arrays two_arrays !! 0 = Some (Z.of_nat <$> seq 0 1024)) as H0
    by reflexivity.
  assert (arrays two_arrays !! 1 = Some (replicate 1024 7%Z)) as H1
    by reflexivity.
  assert (length (Z.of_nat <$> seq 0 1024) = 1024) as L0 by reflexivity.
  assert (length (replicate 1024 7%Z) = 1024) as L1 by reflexivity.
  split; [exact H0|]. split; [exact H1|]. split; [exact L0|].
  split; [exact L1|].
  exact (f_adds_one Z.succ 0 1 _ _ two_arrays H0 H1 L0 L1).
Defined.

Example addone_small :
  match my_tvm_addone Z.succ 0 1
          (State {[0 := [10; 20; 30]%Z; 1 := [0; 0; 0]%Z]} []) with
  | Ok st' => arrays st' !! 1 = Some [11; 21; 31]%Z
              ∧ stdout st' = ["my_tvm_addone signatures: <class 'tvm.ndarray.NDArray'>, <class 'tvm.ndarray.NDArray'>"]
  | Raise _ => False
  end.
Proof. vm_compute. done. Qed.

(** Three arrays of three elements. *)
Definition three_arrays : state (T:=Z) :=
  State {[0 := [10; 20; 30]%Z; 1 := [0; 0; 0]%Z; 2 := [7; 7; 7]%Z]} [].

Lemma my_tvm_addone_returns_iff_witness :
  arrays three_arrays !! 0 = Some [10; 20; 30]%Z
  ∧ arrays three_arrays !! 1 = Some [0; 0; 0]%Z
  ∧ ((∃ st', my_tvm_addone Z.succ 0 1 three_arrays = Ok st')
     ↔ length [10; 20; 30]%Z = length [0; 0; 0]%Z).
Proof.
  split; [reflexivity|]. split; [reflexivity|].
  apply (my_tvm_addone_returns_iff Z.succ 0 1 [10; 20; 30]%Z [0; 0; 0]%Z
           three_arrays); reflexivity.
Defined.

Lemma three_arrays_addone :
  my_tvm_addone Z.succ 0 1 three_arrays
  = Ok (after_addone Z.succ 0 1 [10; 20; 30]%Z three_arrays).
Proof.
  apply (my_tvm_addone_run Z.succ 0 1 [10; 20; 30]%Z [0; 0; 0]%Z);
    reflexivity.
Qed.

Lemma my_tvm_addone_frame_witness :
  arrays three_arrays !! 1 = Some [0; 0; 0]%Z
  ∧ my_tvm_addone Z.succ 0 1 three_arrays
    = Ok (after_addone Z.succ 0 1 [10; 20; 30]%Z three_arrays)
  ∧ stdout (after_addone Z.succ 0 1 [10; 20; 30]%Z three_arrays)
    = (stdout three_arrays ++ [signature_line])%list
  ∧ dom (arrays (after_addone Z.succ 0 1 [10; 20; 30]%Z three_arrays))
    = dom (arrays three_arrays) ∪ {[temporary three_arrays]}
  ∧ ∀ h, h ≠ 1 → h ∈ dom (arrays three_arrays) →
         arrays (after_addone Z.succ 0 1 [10; 20; 30]%Z three_arrays) !! h
         = arrays three_arrays !! h.
Proof.
  split; [reflexivity|]. split; [exact three_arrays_addone|].
  exact (my_tvm_addone_frame Z.succ 0 1 [0; 0; 0]%Z three_arrays
           (after_addone Z.succ 0 1 [10; 20; 30]%Z three_arrays)
           eq_refl three_arrays_addone).
Defined.

Lemma my_tvm_addone_in_place_witness :
  arrays three_arrays !! 0 = Some [10; 20; 30]%Z
  ∧ ∃ st', my_tvm_addone Z.succ 0 0 three_arrays = Ok st'
           ∧ arrays st' !! 0 = Some (Z.succ <$> [10; 20; 30]%Z).
Proof.
  split; [reflexivity|].
  apply (my_tvm_addone_in_place Z.succ 0 [10; 20; 30]%Z three_arrays).
  reflexivity.
Defined.

Lemma f_chain_witness :
  0 ≠ 1 ∧ 0 ≠ 2 ∧ 1 ≠ 2
  ∧ arrays three_arrays !! 0 = Some [10; 20; 30]%Z
  ∧ arrays three_arrays !! 1 = Some [0; 0; 0]%Z
  ∧ arrays three_arrays !! 2 = Some [7; 7; 7]%Z
  ∧ ∃ st1 st2,
      f (notebook_registry Z.succ) 3 0 1 three_arrays = Ok st1
      ∧ f (notebook_registry Z.succ) 3 1 2 st1 = Ok st2
      ∧ arrays st2 !! 0 = Some [10; 20; 30]%Z
      ∧ arrays st2 !! 1 = Some (Z.succ <$> [10; 20; 30]%Z)
      ∧ arrays st2 !! 2 = Some (Z.succ <$> (Z.succ <$> [10; 20; 30]%Z)).
Proof.
  split; [lia|]. split; [lia|]. split; [lia|].
  split; [reflexivity|]. split; [reflexivity|]. split; [reflexivity|].
  apply (f_chain Z.succ 3 0 1 2 [10; 20; 30]%Z [0; 0; 0]%Z [7; 7; 7]%Z
           three_arrays); (lia || reflexivity).
Defined.

End ExternOp.

(** ** Splitting an axis twice (getting-started notebook) *)

Module Sched.

Inductive exn : Type :=
| ValueError (msg : string)
| TVMError (msg : string).

(** An iteration variable: an object of the framework with its own
    identity, its name and the printed form of its range. *)
Record IterVar : Type := {
  node : nat;
  name : string;
  range : string;
}.

#[global] Instance IterVar_eq_dec : EqDecision IterVar.
Proof. solve_decision. Defined.

(** [str(iv)], as the notebook prints iteration variables. *)
Definition repr (v : IterVar) : string :=
  "iter_var(" +:+ name v +:+ ", " +:+ range v +:+ ")".

Record Split : Type := {
  parent : IterVar; outer : IterVar; inner : IterVar; factor : Z;
}.

Record Stage : Type := {
  all_iter_vars : list IterVar;
  leaf_iter_vars : list IterVar;
  relations : list Split;
  next_node : nat;
}.

(** The position of [v] in [l], or the length of [l] when it is not
    there. *)
Fixpoint FindNodeRef (l : list IterVar) (v : IterVar) : nat :=
  match l with
  | [] => 0
  | x :: rest => if decide (x = v) then 0 else S (FindNodeRef rest v)
  end.

Definition already_split (v : IterVar) : string :=
  "Operate on iter var " +:+ repr v +:+ "that has already been splitted".

Definition not_in_schedule (v : IterVar) : string :=
  "Operate on iter var " +:+ repr v +:+ "that is not part of the schedule".

(** What a call into the library leaves behind: return code 0 and a
    value, or a non-zero code and the text of the last error. *)
Inductive c_result (A : Type) : Type :=
| CRet (value : A)
| CFail (last_error : string).
Arguments CRet {A} value.
Arguments CFail {A} last_error.

(** Modelled from the spec: the framework's check on the axis handed to
    a schedule primitive (schedule_lang.cc) is not part of the repository;
    the notebook holds only its diagnostic, in the traceback of the
    failing cell.  An axis can be operated on while it is a leaf of the
    stage; an axis of the stage that is no longer a leaf is reported as
    already split. *)
Definition FindLeafVar (all_vars leaf_vars : list IterVar) (v : IterVar)
    : c_result nat :=
  let pos := FindNodeRef leaf_vars v in
  if pos <? length leaf_vars then CRet pos
  else if FindNodeRef all_vars v <? length all_vars
       then CFail (already_split v)
       else CFail (not_in_schedule v).

(** Modelled from the spec: the framework's [Stage::split] is not part of
    the repository; the traceback names it and the notebook prints its
    results.  Splitting a leaf replaces it, in place, by its new outer
    and inner parts, which are added to the axes of the stage. *)
Definition StageSplitByFactor (self : Stage) (p : IterVar) (fac : Z)
    : c_result (IterVar * IterVar * Stage) :=
  let o := {| node := next_node self; name := name p +:+ ".outer";
              range := "" |} in
  let i := {| node := S (next_node self); name := name p +:+ ".inner";
              range := "" |} in
  match FindLeafVar (all_iter_vars self) (leaf_iter_vars self) p with
  | CFail e => CFail e
  | CRet pos =>
      CRet (o, i,
            {| all_iter_vars := all_iter_vars self ++ [o; i];
               leaf_iter_vars :=
                 take pos (leaf_iter_vars self) ++ o :: i
                   :: drop (S pos) (leaf_iter_vars self);
               relations :=
                 relations self
                   ++ [{| parent := p; outer := o; inner := i;
                          factor := fac |}];
               next_node := S (S (next_node self)) |})
  end.

(** [check_call] (base.py, in the traceback):
    [if ret != 0: raise TVMError(py_str(_LIB.TVMGetLastError()))]. *)
Definition check_call {A : Type} (r : c_result A) : result exn A :=
  match r with
  | CRet v => Ok v
  | CFail last_error => Raise (TVMError last_error)
  end.

(** [Stage.split] (schedule.py, in the traceback). *)
Definition split (self : Stage) (p : IterVar) (fac nparts : option Z)
    : result exn (IterVar * IterVar * Stage) :=
  match nparts with
  | Some _ =>
      match fac with
      | Some _ =>
          Raise (ValueError "Do not need to provide both outer and nparts")
      | None => Raise (ValueError "split by nparts")
      end
  | None =>
      match fac with
      | None =>
          Raise (ValueError "Either nparts or factor need to be provided")
      | Some f => check_call (StageSplitByFactor self p f)
      end
  end.

(** *** The notebook cell [bx, tx = s[C].split(C.op.axis[0], factor=64)] *)

(** What the cell can see: the stage of [C] in [s], the root axis of [C]
    and the two names it binds. *)
Record session : Type := {
  stage_C : Stage;
  axis0 : IterVar;
  bx_tx : option (IterVar * IterVar);
}.

(** What the notebook shows under a cell. *)
Inductive output : Type :=
| Silent
| Error (ename evalue : string).

Definition ename (e : exn) : string :=
  match e with ValueError _ => "ValueError" | TVMError _ => "TVMError" end.

Definition evalue (e : exn) : string :=
  match e with ValueError m => m | TVMError m => m end.

(** The cell is the one statement: an exception it raises is not caught
    and ends up under the cell, and nothing is bound. *)
Definition split_cell (σ : session) : session * output :=
  match split (stage_C σ) (axis0 σ) (Some 64%Z) None with
  | Ok (o, i, stage') =>
      ({| stage_C := stage'; axis0 := axis0 σ; bx_tx := Some (o, i) |},
       Silent)
  | Raise e => (σ, Error (ename e) (evalue e))
  end.

(** [s = tvm.create_schedule(C.op)] for [C] with the one axis [i]. *)
Definition axis_i : IterVar :=
  {| node := 0; name := "i"; range := "Range(min=0, extent=n)" |}.

Definition create_schedule_C : session :=
  {| stage_C := {| all_iter_vars := [axis_i]; leaf_iter_vars := [axis_i];
                   relations := []; next_node := 1 |};
     axis0 := axis_i;
     bx_tx := None |}.

(** *** Stages that the framework can build *)

Record wf (s : Stage) : Prop := {
  wf_nodup : NoDup (leaf_iter_vars s);
  wf_leaf_all : ∀ v, v ∈ leaf_iter_vars s → v ∈ all_iter_vars s;
  wf_nodes : ∀ v, v ∈ all_iter_vars s → node v < next_node s;
}.

Lemma FindNodeRef_found (l : list IterVar) (v : IterVar) :
  v ∈ l → l !! FindNodeRef l v = Some v.
Proof.
  induction l as [|x l IH]; intros Hin; simpl.
  - by apply elem_of_nil in Hin.
  - destruct (decide (x = v)) as [->|Hne]; [done|].
    apply elem_of_cons in Hin as [->|Hin]; [done|]. by apply IH.
Qed.

Lemma FindNodeRef_missing (l : list IterVar) (v : IterVar) :
  v ∉ l → FindNodeRef l v = length l.
Proof.
  induction l as [|x l IH]; intros Hin; simpl; [done|].
  destruct (decide (x = v)) as [->|Hne].
  - exfalso. apply Hin. by left.
  - rewrite IH; [done|]. intros H. apply Hin. by right.
Qed.

Lemma FindNodeRef_bound (l : list IterVar) (v : IterVar) :
  FindNodeRef l v < length l ↔ v ∈ l.
Proof.
  split.
  - intros Hlt. destruct (decide (v ∈ l)) as [|Hnot]; [done|].
    rewrite FindNodeRef_missing in Hlt by done. lia.
  - intros Hin. eapply lookup_lt_Some. by apply FindNodeRef_found.
Qed.

Lemma create_schedule_wf : wf (stage_C create_schedule_C).
Proof.
  split; simpl.
  - apply NoDup_singleton.
  - done.
  - intros v ->%list_elem_of_singleton. simpl. lia.
Qed.

(** After a split the parent is an axis of the stage and not a leaf. *)
Lemma split_retires_parent (s s' : Stage) (p o i : IterVar) (fac : Z) :
  wf s →
  StageSplitByFactor s p fac = CRet (o, i, s') →
  (p ∉ leaf_iter_vars s') ∧ (p ∈ all_iter_vars s').
Proof.
  intros [Hnd Hla Hnodes]. unfold StageSplitByFactor, FindLeafVar.
  destruct (Nat.ltb_spec (FindNodeRef (leaf_iter_vars s) p)
              (length (leaf_iter_vars s))) as [Hpos|Hpos].
  2:{ by destruct (_ <? _). }
  intros [= <- <- <-]. simpl.
  apply FindNodeRef_bound in Hpos as Hin.
  pose proof (FindNodeRef_found _ _ Hin) as Hlk.
  set (pos := FindNodeRef (leaf_iter_vars s) p) in *.
  pose proof (Hnodes p (Hla p Hin)) as Hnode.
  rewrite <- (take_drop_middle _ _ _ Hlk) in Hnd.
  apply NoDup_app in Hnd as (_ & Hsep & Hnd).
  apply NoDup_cons in Hnd as [Hdrop _].
  split.
  - rewrite elem_of_app, !elem_of_cons. intros [Htake|[Ho|[Hi|Hd]]].
    + apply (Hsep p Htake). by left.
    + apply (f_equal node) in Ho. simpl in Ho. lia.
    + apply (f_equal node) in Hi. simpl in Hi. lia.
    + done.
  - apply elem_of_app. left. by apply Hla.
Qed.

(** The diagnostic of a second split. *)
Lemma resplit_fails (s s' : Stage) (p o i : IterVar) (fac fac' : Z) :
  wf s →
  StageSplitByFactor s p fac = CRet (o, i, s') →
  StageSplitByFactor s' p fac' = CFail (already_split p).
Proof.
  intros Hwf Hsplit.
  destruct (split_retires_parent s s' p o i fac Hwf Hsplit) as [Hleaf Hall].
  unfold StageSplitByFactor, FindLeafVar.
  rewrite (FindNodeRef_missing _ _ Hleaf), Nat.ltb_irrefl.
  apply FindNodeRef_bound in Hall.
  by destruct (Nat.ltb_spec (FindNodeRef (all_iter_vars s') p)
                 (length (all_iter_vars s'))); [|lia].
Qed.

(** C5: when the split cell has run once on a stage where the axis was a
    leaf, running it again raises [TVMError]; what the notebook shows is
    the library's last error, unchanged, and the session is as the first
    run left it: nothing is retried, recovered or rebound. *)
Theorem second_split_raises (σ : session) :
  wf (stage_C σ) → axis0 σ ∈ leaf_iter_vars (stage_C σ) →
  ∃ σ1 diagnostic,
    split_cell σ = (σ1, Silent)
    ∧ StageSplitByFactor (stage_C σ1) (axis0 σ1) 64 = CFail diagnostic
    ∧ diagnostic = already_split (axis0 σ)
    ∧ split (stage_C σ1) (axis0 σ1) (Some 64%Z) None
      = Raise (TVMError diagnostic)
    ∧ split_cell σ1 = (σ1, Error "TVMError" diagnostic).
Proof.
  intros Hwf Hleaf. unfold split_cell at 1. unfold split, check_call.
  destruct (StageSplitByFactor (stage_C σ) (axis0 σ) 64)
    as [[[o i] s']|e] eqn:Hfirst.
  2:{ exfalso. revert Hfirst. unfold StageSplitByFactor, FindLeafVar.
      apply FindNodeRef_bound in Hleaf.
      by destruct (Nat.ltb_spec (FindNodeRef (leaf_iter_vars (stage_C σ))
                                   (axis0 σ))
                     (length (leaf_iter_vars (stage_C σ)))); [|lia]. }
  pose proof (resplit_fails _ _ _ _ _ 64%Z 64%Z Hwf Hfirst) as Hsecond.
  eexists _, (already_split (axis0 σ)).
  split; [reflexivity|]. simpl.
  split; [exact Hsecond|]. split; [done|].
  unfold split_cell, split, check_call. simpl. by rewrite Hsecond.
Qed.

Lemma second_split_raises_witness :
  wf (stage_C create_schedule_C)
  ∧ axis0 create_schedule_C ∈ leaf_iter_vars (stage_C create_schedule_C)
  ∧ ∃ σ1 diagnostic,
      split_cell create_schedule_C = (σ1, Silent)
      ∧ StageSplitByFactor (stage_C σ1) (axis0 σ1) 64 = CFail diagnostic
      ∧ diagnostic = already_split (axis0 create_schedule_C)
      ∧ split (stage_C σ1) (axis0 σ1) (Some 64%Z) None
        = Raise (TVMError diagnostic)
      ∧ split_cell σ1 = (σ1, Error "TVMError" diagnostic).
Proof.
  assert (axis0 create_schedule_C
            ∈ leaf_iter_vars (stage_C create_schedule_C)) as Hleaf
    by (simpl; by left).
  split; [exact create_schedule_wf|]. split; [exact Hleaf|].
  exact (second_split_raises create_schedule_C create_schedule_wf Hleaf).
Defined.

(** The run the notebook records: the names printed by the next cell and
    the text under the failing one. *)
Example notebook_split_twice :
  let σ1 := (split_cell create_schedule_C).1 in
  (repr <$> leaf_iter_vars (stage_C σ1)
   = ["iter_var(i.outer, )"; "iter_var(i.inner, )"])
  ∧ (split_cell σ1).2
    = Error "TVMError"
        "Operate on iter var iter_var(i, Range(min=0, extent=n))that has already been splitted".
Proof. vm_compute. done. Qed.

End Sched.

(** ** The order of the steps in the kernel notebooks *)

Module Pipeline.
#[local] Open Scope list_scope.

(** One statement of a notebook, as far as the pipeline is concerned.
    Names are the Python variables of the statement. *)
Inductive event : Type :=
| Decl (x : string)                       (* x = tvm.placeholder / compute / extern / var ... *)
| CreateSchedule (s x : string)              (* s = tvm.create_schedule(x.op) *)
| Transform (s stage prim : string)          (* s[stage].prim(...), s.prim(stage, ...) *)
| Lower (s : string)                         (* tvm.lower(s, ...) *)
| Build (f s : string)                       (* f = tvm.build(s, ...) *)
| LoadModule (f src : string)                (* f = tvm.module.load(<what src saved>) *)
| Alloc (a : string)                         (* a = tvm.nd.array(...) *)
| Run (f out : string)                       (* f(..., out, ...) *)
| Compare (out : string)                       (* assert_allclose(out.asnumpy(), <numpy>) *)
| Other (what : string).                     (* printing, registration, saving *)

(** *** What has happened so far

    The statements already executed, most recent first. *)

(** Is the schedule bound to [s] built ([Some true]), created and not yet
    built ([Some false]), or not there at all? *)
Fixpoint sched_status (past : list event) (s : string) : option bool :=
  match past with
  | [] => None
  | CreateSchedule s' _ :: rest =>
      if decide (s' = s) then Some false else sched_status rest s
  | Build _ s' :: rest =>
      if decide (s' = s) then Some true else sched_status rest s
  | _ :: rest => sched_status rest s
  end.

Definition binds_function (f : string) (e : event) : bool :=
  match e with
  | Build f' _ => bool_decide (f' = f)
  | LoadModule f' _ => bool_decide (f' = f)
  | _ => false
  end.

Definition declares (x : string) (e : event) : bool :=
  match e with Decl x' => bool_decide (x' = x) | _ => false end.

Definition creates (s : string) (e : event) : bool :=
  match e with CreateSchedule s' _ => bool_decide (s' = s) | _ => false end.

(** Has a kernel written [out] since it was last allocated? *)
Fixpoint produced (past : list event) (out : string) : bool :=
  match past with
  | [] => false
  | Run _ out' :: rest =>
      if decide (out' = out) then true else produced rest out
  | Alloc out' :: rest =>
      if decide (out' = out) then false else produced rest out
  | _ :: rest => produced rest out
  end.

(** May [e] come next? *)
Definition in_order (past : list event) (e : event) : bool :=
  match e with
  | Decl _ | Alloc _ | Other _ => true
  | CreateSchedule _ x => existsb (declares x) past
  | Transform s _ _ => bool_decide (sched_status past s = Some false)
  | Lower s => existsb (creates s) past
  | Build _ s => existsb (creates s) past
  | LoadModule _ src => existsb (binds_function src) past
  | Run f _ => existsb (binds_function f) past
  | Compare out => produced past out
  end.

(** The monitor: every statement comes in order after those before it. *)
Fixpoint accepts (past rest : list event) : bool :=
  match rest with
  | [] => true
  | e :: rest' => in_order past e && accepts (e :: past) rest'
  end.

(** *** The order, stated on the sequence of statements *)

Record pipeline_order (t : list event) : Prop := {
  schedule_after_declare :
    ∀ l1 l2 s x, t = l1 ++ CreateSchedule s x :: l2 → Decl x ∈ l1;
  transform_after_schedule :
    ∀ l1 l2 s stage prim, t = l1 ++ Transform s stage prim :: l2 →
      ∃ x, CreateSchedule s x ∈ l1;
  build_after_schedule :
    ∀ l1 l2 f s, t = l1 ++ Build f s :: l2 → ∃ x, CreateSchedule s x ∈ l1;
  (* a schedule that has been built is transformed again only if it has
     been created anew in between *)
  no_transform_after_build :
    ∀ l1 l2 l3 f s stage prim,
      t = l1 ++ Build f s :: l2 ++ Transform s stage prim :: l3 →
      ∃ x, CreateSchedule s x ∈ l2;
  run_after_build :
    ∀ l1 l2 f out, t = l1 ++ Run f out :: l2 →
      (∃ s, Build f s ∈ l1) ∨ (∃ src, LoadModule f src ∈ l1);
  load_after_build :
    ∀ l1 l2 f src, t = l1 ++ LoadModule f src :: l2 →
      (∃ s, Build src s ∈ l1) ∨ (∃ src', LoadModule src src' ∈ l1);
  check_after_run :
    ∀ l1 l2 out, t = l1 ++ Compare out :: l2 → ∃ f, Run f out ∈ l1;
}.

Lemma accepts_at (past l1 l2 : list event) (e : event) :
  accepts past (l1 ++ e :: l2) = true → in_order (reverse l1 ++ past) e = true.
Proof.
  revert past. induction l1 as [|a l1 IH]; intros past; simpl.
  - by intros [? _]%andb_prop.
  - intros [_ H]%andb_prop. apply IH in H.
    by rewrite reverse_cons, <- app_assoc.
Qed.

Lemma sched_status_app (a b : list event) (s : string) :
  sched_status (a ++ b) s
  = match sched_status a s with
    | Some r => Some r
    | None => sched_status b s
    end.
Proof.
  induction a as [|e a IH]; simpl; [done|].
  destruct e; try done; by case_decide.
Qed.

Lemma sched_status_created (past : list event) (s : string) :
  sched_status past s = Some false → ∃ x, CreateSchedule s x ∈ past.
Proof.
  induction past as [|e past IH]; [done|].
  destruct e as [| s' x | | | f s' | | | | |]; cbn [sched_status];
    try (intros [y Hy]%IH; exists y; by right).
  - destruct (decide (s' = s)) as [->|Hne]; [intros _; exists x; by left|].
    intros [y Hy]%IH. exists y. by right.
  - destruct (decide (s' = s)); [done|].
    intros [y Hy]%IH. exists y. by right.
Qed.

Lemma in_reverse (e : event) (l : list event) : e ∈ reverse l → e ∈ l.
Proof. by rewrite elem_of_reverse. Qed.

Lemma existsb_reverse (p : event → bool) (l : list event) :
  existsb p (reverse l) = true → ∃ e, e ∈ l ∧ p e = true.
Proof.
  intros (e & Hin & He)%existsb_exists. exists e. split; [|done].
  apply in_reverse, list_elem_of_In. exact Hin.
Qed.

Lemma produced_run (past : list event) (out : string) :
  produced past out = true → ∃ f, Run f out ∈ past.
Proof.
  induction past as [|e past IH]; [done|].
  destruct e as [| | | | | | a | f out' | |]; cbn [produced];
    try (intros [g Hg]%IH; exists g; by right).
  - destruct (decide (a = out)); [done|].
    intros [g Hg]%IH. exists g. by right.
  - destruct (decide (out' = out)) as [->|Hne]; [intros _; exists f; by left|].
    intros [g Hg]%IH. exists g. by right.
Qed.

Lemma binds_function_inv (f : string) (e : event) :
  binds_function f e = true →
  (∃ s, e = Build f s) ∨ (∃ src, e = LoadModule f src).
Proof.
  destruct e; simpl; try done; intros ->%bool_decide_eq_true; eauto.
Qed.

(** A sequence the monitor accepts is in order. *)
Lemma accepts_sound (t : list event) :
  accepts [] t = true → pipeline_order t.
Proof.
  intros Hacc. split.
  - intros l1 l2 s x ->. apply accepts_at in Hacc. simpl in Hacc.
    rewrite app_nil_r in Hacc.
    apply existsb_reverse in Hacc as (e & Hin & He).
    destruct e; simpl in He; try done.
    by apply bool_decide_eq_true in He as ->.
  - intros l1 l2 s stage prim ->. apply accepts_at in Hacc. simpl in Hacc.
    rewrite app_nil_r in Hacc. apply bool_decide_eq_true in Hacc.
    apply sched_status_created in Hacc as [x Hx].
    exists x. by apply in_reverse.
  - intros l1 l2 f s ->. apply accepts_at in Hacc. simpl in Hacc.
    rewrite app_nil_r in Hacc.
    apply existsb_reverse in Hacc as (e & Hin & He).
    destruct e; simpl in He; try done.
    apply bool_decide_eq_true in He as ->. eauto.
  - intros l1 l2 l3 f s stage prim ->.
    replace (l1 ++ Build f s :: l2 ++ Transform s stage prim :: l3)
      with ((l1 ++ Build f s :: l2) ++ Transform s stage prim :: l3) in Hacc
      by (by rewrite <- app_assoc).
    apply accepts_at in Hacc. cbn [in_order] in Hacc.
    apply bool_decide_eq_true in Hacc.
    rewrite app_nil_r, reverse_app, reverse_cons, <- app_assoc in Hacc.
    rewrite sched_status_app in Hacc.
    destruct (sched_status (reverse l2) s) as [r|] eqn:Hl2.
    + injection Hacc as ->.
      apply sched_status_created in Hl2 as [x Hx].
      exists x. by apply in_reverse.
    + cbn [app sched_status] in Hacc.
      by destruct (decide (s = s)).
  - intros l1 l2 f out ->. apply accepts_at in Hacc. simpl in Hacc.
    rewrite app_nil_r in Hacc.
    apply existsb_reverse in Hacc as (e & Hin & He).
    apply binds_function_inv in He as [[s ->]|[src ->]]; eauto.
  - intros l1 l2 f src ->. apply accepts_at in Hacc. simpl in Hacc.
    rewrite app_nil_r in Hacc.
    apply existsb_reverse in Hacc as (e & Hin & He).
    apply binds_function_inv in He as [[s ->]|[src' ->]]; eauto.
  - intros l1 l2 out ->. apply accepts_at in Hacc. simpl in Hacc.
    rewrite app_nil_r in Hacc.
    apply produced_run in Hacc as [f Hf].
    exists f. by apply in_reverse.
Qed.

(** *** The notebooks, statement by statement *)

(** Reduction notebook. *)
Definition reduction : list event :=
  [ (* describe sum of rows *)
    Decl "n"; Decl "m"; Decl "A"; Decl "k"; Decl "B";
    (* default schedule *)
    CreateSchedule "s" "B"; Lower "s";
    (* split both axes *)
    Transform "s" "B" "split"; Transform "s" "B" "split"; Lower "s";
    (* bind the rows to threads *)
    Transform "s" "B" "bind"; Transform "s" "B" "bind"; Lower "s";
    (* reduction factoring *)
    CreateSchedule "s" "B";
    Transform "s" "B" "split"; Transform "s" "B" "rfactor"; Lower "s";
    Other "print(s[B].op.body)";
    (* cross thread reduction *)
    Transform "s" "B" "split";
    Transform "s" "B" "bind"; Transform "s" "B" "bind";
    Transform "s" "B" "bind";
    Transform "s" "BF" "compute_at";
    Transform "s" "B" "set_store_predicate";
    Build "fcuda" "s"; Other "print(get_source())";
    (* verify *)
    Alloc "a"; Alloc "b"; Run "fcuda" "b"; Compare "b";
    (* convolution via 2D reduction *)
    Decl "n"; Decl "Input"; Decl "Filter"; Decl "di";
    Decl "dj"; Decl "Output";
    CreateSchedule "s" "Output"; Lower "s";
    (* general commutative reduction *)
    Decl "n"; Decl "m"; Decl "product"; Decl "A"; Decl "k";
    Decl "B" ].

(** Getting-started notebook (vector addition); [tgt] is the target set
    in its first cell. *)
Definition get_started (tgt : string) : list event :=
  [ Decl "n"; Decl "A"; Decl "B"; Decl "C";
    Other "print(type(C))";
    CreateSchedule "s" "C"; Lower "s";
    Other "print(stageA)"; Other "print(stageA.op, stageB.op, stageC.op)";
    Other "print(stageC.op ...)";
    Transform "s" "C" "split"; Other "print(bx, tx)" ]
  ++ (if String.eqb tgt "cuda"
      then [Transform "s" "C" "bind"; Transform "s" "C" "bind"] else [])
  ++ [ Build "fadd" "s";
       Alloc "a"; Alloc "b"; Alloc "c"; Run "fadd" "c"; Compare "c";
       Other "print(get_source())";
       Other "fadd.save"; Other "cc.create_shared";
       LoadModule "fadd1" "fadd"; Other "fadd1.import_module";
       Run "fadd1" "c"; Compare "c";
       Other "fadd.export_library";
       LoadModule "fadd2" "fadd"; Run "fadd2" "c"; Compare "c" ]
  ++ (if String.eqb tgt "opencl"
      then [ Build "fadd_cl" "s"; Other "print(get_source())";
             Alloc "a"; Alloc "b"; Alloc "c";
             Run "fadd_cl" "c"; Compare "c" ]
      else []).

(** Extern notebook. *)
Definition extern_op : list event :=
  [ Decl "bias"; Decl "A"; Decl "B"; Decl "C"; Decl "D";
    CreateSchedule "s" "D";
    Build "f" "s"; Alloc "a"; Alloc "b"; Alloc "d"; Run "f" "d"; Compare "d";
    (* contrib wrapper *)
    Decl "C"; Decl "D"; CreateSchedule "s" "D";
    (* Python function as extern *)
    Other "register_func(my_tvm_addone)";
    Decl "A"; Decl "B"; CreateSchedule "s" "B";
    Build "f" "s"; Alloc "a"; Alloc "b"; Run "f" "b"; Compare "b" ].

(** Intrinsics notebook. *)
Definition intrinsics : list event :=
  [ (* direct extern call *)
    Decl "n"; Decl "A"; Decl "B"; CreateSchedule "s" "B";
    Transform "s" "B" "split";
    Transform "s" "B" "bind"; Transform "s" "B" "bind";
    Build "f" "s"; Other "print(get_source())";
    (* unified intrinsic call *)
    Decl "n"; Decl "A"; Decl "B"; CreateSchedule "s" "B";
    Transform "s" "B" "split";
    Transform "s" "B" "bind"; Transform "s" "B" "bind";
    Build "fcuda" "s"; Other "print(get_source())";
    Build "fopencl" "s"; Other "print(get_source())";
    (* lowering rule *)
    Other "register_intrin_rule(exp)";
    Build "fcuda" "s"; Other "print(get_source())";
    (* own intrinsic *)
    Other "register_intrin_rule(mylog)";
    Decl "n"; Decl "A"; Decl "B"; CreateSchedule "s" "B";
    Transform "s" "B" "split";
    Transform "s" "B" "bind"; Transform "s" "B" "bind";
    Build "fcuda" "s"; Other "print(get_source())" ].

(** TensorCore matmul notebook: [tune_and_evaluate] from its call of the
    template [test_gemm] on, for the layout [layout]. *)
Definition test_gemm (layout : string) : list event :=
  [ Decl "A"; Decl "B"; Decl "k"; Decl "C";
    CreateSchedule "s" "C";
    (* cache stages *)
    Transform "s" "A" "cache_read" ]
  ++ (if String.eqb layout "NN" || String.eqb layout "TN"
      then [Transform "s" "AA" "storage_align"] else [])
  ++ [ Transform "s" "AA" "cache_read"; Transform "s" "B" "cache_read" ]
  ++ (if String.eqb layout "TT" || String.eqb layout "NT"
      then [Transform "s" "BB" "storage_align"] else [])
  ++ [ Transform "s" "BB" "cache_read"; Transform "s" "C" "cache_write";
       Other "autotvm.get_config()";
       (* C *)
       Transform "s" "C" "split"; Transform "s" "C" "split";
       Transform "s" "C" "split"; Transform "s" "C" "split";
       Transform "s" "C" "split"; Transform "s" "C" "reorder";
       Transform "s" "C" "bind"; Transform "s" "C" "bind";
       Transform "s" "C" "bind"; Transform "s" "C" "bind";
       Transform "s" "C" "bind";
       (* CL *)
       Transform "s" "CL" "split"; Transform "s" "CL" "split";
       Transform "s" "CL" "compute_at"; Transform "s" "CL" "reorder";
       (* AA *)
       Transform "s" "AA" "compute_at";
       Transform "s" "AA" "split"; Transform "s" "AA" "split";
       Transform "s" "AA" "split"; Transform "s" "AA" "fuse";
       Transform "s" "AA" "split";
       Transform "s" "AA" "bind"; Transform "s" "AA" "bind";
       Transform "s" "AA" "bind"; Transform "s" "AA" "vectorize";
       (* BB *)
       Transform "s" "BB" "compute_at";
       Transform "s" "BB" "split"; Transform "s" "BB" "split";
       Transform "s" "BB" "split"; Transform "s" "BB" "fuse";
       Transform "s" "BB" "split";
       Transform "s" "BB" "bind"; Transform "s" "BB" "bind";
       Transform "s" "BB" "bind"; Transform "s" "BB" "vectorize";
       Transform "s" "AL" "compute_at"; Transform "s" "BL" "compute_at";
       Transform "s" "CL" "pragma" ].

Definition tune_and_evaluate (layout : string) : list event :=
  test_gemm layout
  ++ [ Lower "s"; Build "func" "s"; Other "print(get_source())";
       Alloc "c_tvm"; Alloc "a_tvm"; Alloc "b_tvm";
       Run "func" "c_tvm"; Compare "c_tvm";
       Other "time_evaluator" ].

Definition kernel_notebooks : list (list event) :=
  [ reduction; get_started "cuda"; get_started "opencl"; extern_op;
    intrinsics;
    tune_and_evaluate "NN"; tune_and_evaluate "NT";
    tune_and_evaluate "TN"; tune_and_evaluate "TT" ].

(** C7: in every kernel notebook a schedule is created after its tensors
    are declared, transformed only between its creation and its build,
    a kernel runs only once it is built, and a result is compared with
    the reference only once a kernel has written it. *)
Theorem notebooks_in_order : Forall pipeline_order kernel_notebooks.
Proof.
  assert (forallb (accepts []) kernel_notebooks = true) as Hall
    by (vm_compute; reflexivity).
  apply Forall_forall. intros t Ht. apply accepts_sound.
  rewrite forallb_forall in Hall. apply Hall. by apply list_elem_of_In.
Qed.

(** The monitor does reject a transformation that follows the build. *)
Example transform_after_build_rejected :
  accepts []
    [ Decl "C"; CreateSchedule "s" "C"; Build "fadd" "s";
      Transform "s" "C" "split" ]
  = false.
Proof. reflexivity. Qed.

Example check_before_run_rejected :
  accepts []
    [ Decl "C"; CreateSchedule "s" "C"; Build "fadd" "s"; Alloc "c";
      Compare "c"; Run "fadd" "c" ]
  = false.
Proof. reflexivity. Qed.

End Pipeline.

(** ** The matrix product of the TensorCore notebook

    [matmul_nn] declares the product for one of four layouts,
    [test_gemm] gives it placeholders and a schedule, and
    [tune_and_evaluate] checks the built function against NumPy. *)

Module TensorCore.
Import Ir.

(** What the three functions of the notebook can raise. *)
Inductive exn : Type :=
| NameError (name : string)
| AttributeError (msg : string)
| SystemExit (code : Z)
| ValueError (msg : string)
| TVMError (msg : string)
| IndexError.

Abbreviation shape := (nat * nat)%type.

(** [tvm.placeholder(shape, name=..., dtype=...)]. *)
Record Tensor : Type := placeholder {
  t_shape : shape;
  t_name : string;
  t_dtype : string;
}.

(** [tvm.compute(shape, lambda i, j:
       tvm.sum(A[...].astype(out_type) * B[...].astype(out_type), axis=k))]
    with [k] ranging over [0, extent): the four bodies of [matmul_nn]
    differ in the two index pairs only. *)
Record Compute : Type := compute {
  c_shape : shape;
  lhs : Tensor;
  rhs : Tensor;
  lhs_index : nat → nat → nat → nat * nat;
  rhs_index : nat → nat → nat → nat * nat;
  out_type : string;
  extent : nat;
}.

(** [matmul_nn(A, B, L, dtype, layout)].  [N] and [M] are not parameters
    of the function: it reads the notebook's globals of that name.
    [out_type] is assigned under two of the dtypes only, and is read when
    the body of a supported layout is built; with no supported layout
    the function falls off its end and returns [None]. *)
Definition matmul_nn (N M : nat) (A B : Tensor) (L : nat)
    (dtype layout : string) : result exn (option Compute) :=
  let out_type : option string :=
    if String.eqb dtype "float16" then Some "float"
    else if String.eqb dtype "int8" then Some "int"
    else None in
  let sum_over_k (ia ib : nat → nat → nat → nat * nat)
      : result exn (option Compute) :=
    match out_type with
    | Some t => Ok (Some (compute (N, M) A B ia ib t L))
    | None => Raise (NameError "out_type")
    end in
  if String.eqb layout "NN" then
    sum_over_k (λ i j k, (i, k)) (λ i j k, (k, j))
  else if String.eqb layout "NT" then
    sum_over_k (λ i j k, (k, i)) (λ i j k, (k, j))
  else if String.eqb layout "TN" then
    sum_over_k (λ i j k, (i, k)) (λ i j k, (j, k))
  else if String.eqb layout "TT" then
    sum_over_k (λ i j k, (k, i)) (λ i j k, (j, k))
  else Ok None.

(** [test_gemm(N, L, M, dtype, layout)] from the test of the layout to
    the declaration of [C]: what it prints, and the tensors it returns
    beside the schedule.  [N0] and [M0] are the globals [matmul_nn]
    reads.  [tvm.placeholder] belongs to the framework and is taken to
    accept the dtype it is handed, as it does "float16" and "int8"; the
    statements from [tvm.create_schedule] on are embedded apart, in
    [schedule_C], [schedule_shared] and [schedule_CL]. *)
Definition test_gemm (N0 M0 : nat) (N L M : nat) (dtype layout : string)
    : list string * result exn (Tensor * Tensor * Compute) :=
  let shapes : option (shape * shape) :=
    if String.eqb layout "NN" then Some ((N, L), (L, M))
    else if String.eqb layout "NT" then Some ((L, N), (L, M))
    else if String.eqb layout "TN" then Some ((N, L), (M, L))
    else if String.eqb layout "TT" then Some ((L, N), (M, L))
    else None in
  match shapes with
  | None => (["Unsupported layout: " +:+ layout], Raise (SystemExit 1))
  | Some (shape_a, shape_b) =>
      let A := placeholder shape_a "A" dtype in
      let B := placeholder shape_b "B" dtype in
      ([], C ← matmul_nn N0 M0 A B L dtype layout;
           match C with
           | Some C => Ok (A, B, C)
           | None =>
               Raise (AttributeError "'NoneType' object has no attribute 'op'")
           end)
  end.

(** *** The schedule of [test_gemm]: extents of the bound axes *)

(** [outer, inner = s[X].split(axis, factor)], on extents: the inner
    axis has the factor for extent, the outer one the rounded-up
    quotient (the reduction notebook prints [(n + 31)/32] and [32] for
    factor 32). *)
Definition split (extent factor : nat) : nat * nat :=
  ((extent + (factor - 1)) / factor, factor).

(** [s[X].fuse(outer, inner)]. *)
Definition fuse (outer inner : nat) : nat := outer * inner.

(** The knobs of the search space. *)
Record Config : Type := Knobs {
  bx : nat;
  by_ : nat;
  step_k : nat;
  v : nat;
}.

Definition config_space : list Config :=
  bx ← [2; 4; 8]; by_ ← [16; 32; 64]; step_k ← [8; 16; 32]; v ← [4; 8];
  [Knobs bx by_ step_k v].

Definition TX : nat := 8.
Definition TY : nat := 1.
Definition warp_tile_m : nat := 16.
Definition warp_tile_k : nat := 16.
Definition tile_x (cfg : Config) : nat := bx cfg * TX.
Definition tile_y (cfg : Config) : nat := by_ cfg * TY.
Definition WX (cfg : Config) : nat := Nat.min warp_tile_m (tile_x cfg).

(** Extents of the axes bound to the GPU's block and thread indices. *)
Record Launch : Type := Bind {
  blockIdx_y : nat;
  blockIdx_x : nat;
  threadIdx_y : nat;
  threadIdx_z : nat;
  threadIdx_x : nat;
}.

(** The C stage, [y] and [x] being the extents of its two axes. *)
Definition schedule_C (cfg : Config) (y x : nat) : Launch :=
  let '(yo, ty) := split y (tile_y cfg) in
  let '(ty, yi) := split ty TY in
  let '(xo, xi) := split x (tile_x cfg) in
  let '(tz, xi) := split xi (WX cfg) in
  let '(tx, xi) := split xi TX in
  Bind yo xo ty tz tx.

(** The AA stage and the BB stage, scheduled by the same statements:
    [axis0] and [axis1] are the extents of the stage's two axes; the
    result is the extents bound to [threadIdx.y], [threadIdx.z] and
    [threadIdx.x]. *)
Definition schedule_shared (cfg : Config) (axis0 axis1 : nat)
    : nat * nat * nat :=
  let '(xo, xi) := split axis1 (bx cfg * v cfg) in
  let '(tz, tx) := split xi ((WX cfg / TX) * v cfg) in
  let '(tx, vec) := split tx (v cfg) in
  let fused := fuse axis0 xo in
  let '(_, ty) := split fused (by_ cfg) in
  (ty, tz, tx).

(** The CL stage: extents of [ko], [kl] and [ki]. *)
Definition schedule_CL (cfg : Config) (k : nat) : nat * nat * nat :=
  let '(ko, ki) := split k (step_k cfg * warp_tile_k) in
  let '(kl, ki) := split ki warp_tile_k in
  (ko, kl, ki).

(** *** The correctness check of [tune_and_evaluate] *)

(** A NumPy array of two dimensions: its shape and its items. *)
Record ndarray : Type := Array {
  np_shape : shape;
  item : nat → nat → Z;
}.

(** [a[i, j]]. *)
Definition getitem (a : ndarray) (ij : nat * nat) : result exn Z :=
  if (ij.1 <? (np_shape a).1) && (ij.2 <? (np_shape a).2)
  then Ok (item a ij.1 ij.2) else Raise IndexError.

(** [a.T]. *)
Definition np_T (a : ndarray) : ndarray :=
  Array ((np_shape a).2, (np_shape a).1) (λ i j, item a j i).

(** The sum of [f 0], ..., [f (n - 1)] in 32-bit arithmetic. *)
Fixpoint sum32 (f : nat → Z) (n : nat) : Z :=
  match n with
  | O => 0%Z
  | S k => iadd (sum32 f k) (f k)
  end.

(** [np.dot(a, b)] on two arrays of dtype [int32]. *)
Definition np_dot (a b : ndarray) : result exn ndarray :=
  if (np_shape a).2 =? (np_shape b).1 then
    Ok (Array ((np_shape a).1, (np_shape b).2)
          (λ i j, sum32 (λ k, imul (item a i k) (item b k j)) (np_shape a).2))
  else Raise (ValueError "shapes not aligned").

(** [a.astype(np.int32)] on an array of dtype [int8]: every item is
    kept. *)
Definition astype_int32 (a : ndarray) : ndarray := a.

(** [shape_a] and [shape_b] of the check; with none of the four layouts
    the two names stay unbound. *)
Definition check_shapes (N L M : nat) (layout : string)
    : option (shape * shape) :=
  if String.eqb layout "NN" then Some ((N, L), (L, M))
  else if String.eqb layout "NT" then Some ((L, N), (L, M))
  else if String.eqb layout "TN" then Some ((N, L), (M, L))
  else if String.eqb layout "TT" then Some ((L, N), (M, L))
  else None.

(** [c_np] under [dtype == 'int8']; it stays [None] with none of the
    four layouts. *)
Definition c_np (layout : string) (a_np b_np : ndarray)
    : result exn (option ndarray) :=
  if String.eqb layout "NN" then
    c ← np_dot (astype_int32 a_np) (astype_int32 b_np); Ok (Some c)
  else if String.eqb layout "NT" then
    c ← np_dot (np_T (astype_int32 a_np)) (astype_int32 b_np); Ok (Some c)
  else if String.eqb layout "TN" then
    c ← np_dot (astype_int32 a_np) (np_T (astype_int32 b_np)); Ok (Some c)
  else if String.eqb layout "TT" then
    c ← np_dot (np_T (astype_int32 a_np)) (np_T (astype_int32 b_np));
    Ok (Some c)
  else Ok None.

(** *** The declared computation on arrays *)

(** The first [n] terms of the reduction of cell [(i, j)], accumulated
    in the 32-bit [int] the operands are cast to. *)
Fixpoint reduce (C : Compute) (a b : ndarray) (i j n : nat)
    : result exn Z :=
  match n with
  | O => Ok 0%Z
  | S k =>
      acc ← reduce C a b i j k;
      x ← getitem a (lhs_index C i j k);
      y ← getitem b (rhs_index C i j k);
      Ok (iadd acc (imul x y))
  end.

(** [func(a_tvm, b_tvm, c_tvm)], cell [(i, j)] of [c_tvm]: the arrays
    must have the shapes of the placeholders. *)
Definition func (C : Compute) (a b : ndarray) (i j : nat) : result exn Z :=
  if bool_decide (np_shape a = t_shape (lhs C))
     && bool_decide (np_shape b = t_shape (rhs C))
  then reduce C a b i j (extent C)
  else Raise (TVMError "argument shape mismatch").

(** *** The layouts are handled alike in the three places *)

Definition supported (layout : string) : Prop :=
  layout = "NN" ∨ layout = "NT" ∨ layout = "TN" ∨ layout = "TT".

Lemma check_shapes_inv (N L M : nat) (layout : string) (sa sb : shape) :
  check_shapes N L M layout = Some (sa, sb) →
  (layout = "NN" ∧ sa = (N, L) ∧ sb = (L, M))
  ∨ (layout = "NT" ∧ sa = (L, N) ∧ sb = (L, M))
  ∨ (layout = "TN" ∧ sa = (N, L) ∧ sb = (M, L))
  ∨ (layout = "TT" ∧ sa = (L, N) ∧ sb = (M, L)).
Proof.
  unfold check_shapes.
  destruct (String.eqb_spec layout "NN") as [->|_];
    [intros [= <- <-]; by left|].
  destruct (String.eqb_spec layout "NT") as [->|_];
    [intros [= <- <-]; right; by left|].
  destruct (String.eqb_spec layout "TN") as [->|_];
    [intros [= <- <-]; do 2 right; by left|].
  destruct (String.eqb_spec layout "TT") as [->|_];
    [intros [= <- <-]; by do 3 right|].
  done.
Qed.

Lemma check_shapes_supported (N L M : nat) (layout : string) :
  is_Some (check_shapes N L M layout) ↔ supported layout.
Proof.
  split.
  - intros [[sa sb] H]. apply check_shapes_inv in H.
    unfold supported. destruct H as [H|[H|[H|H]]]; tauto.
  - intros [-> | [-> | [-> | ->]]]; cbn; eauto.
Qed.

(** What [test_gemm] declares under a supported layout and dtype. *)
Lemma test_gemm_declares (N L M : nat) (dtype layout : string)
    (sa sb : shape) :
  check_shapes N L M layout = Some (sa, sb) →
  dtype = "float16" ∨ dtype = "int8" →
  ∃ C, test_gemm N M N L M dtype layout
       = ([], Ok (placeholder sa "A" dtype, placeholder sb "B" dtype, C))
       ∧ lhs C = placeholder sa "A" dtype
       ∧ rhs C = placeholder sb "B" dtype
       ∧ c_shape C = (N, M) ∧ extent C = L
       ∧ ∀ i j k, i < N → j < M → k < L →
           (lhs_index C i j k).1 < sa.1 ∧ (lhs_index C i j k).2 < sa.2
           ∧ (rhs_index C i j k).1 < sb.1 ∧ (rhs_index C i j k).2 < sb.2.
Proof.
  intros Hs Hd. apply check_shapes_inv in Hs.
  destruct Hs as [(-> & -> & ->)|[(-> & -> & ->)|[(-> & -> & ->)|(-> & -> & ->)]]];
    destruct Hd as [-> | ->];
    (eexists; split; [reflexivity|]; cbn; repeat split; done).
Qed.

(** X15: for each of the four layouts [test_gemm] declares the
    placeholders with the shapes the check of [tune_and_evaluate] gives
    its arrays, the result has shape [(N, M)], and every index the
    declared sum reads lies inside the two placeholders. *)
Theorem layouts_agree (N L M : nat) (dtype layout : string) (sa sb : shape) :
  check_shapes N L M layout = Some (sa, sb) →
  dtype = "float16" ∨ dtype = "int8" →
  ∃ A B C, test_gemm N M N L M dtype layout = ([], Ok (A, B, C))
       ∧ t_shape A = sa ∧ t_shape B = sb
       ∧ lhs C = A ∧ rhs C = B
       ∧ c_shape C = (N, M) ∧ extent C = L
       ∧ ∀ i j k, i < N → j < M → k < L →
           (lhs_index C i j k).1 < sa.1 ∧ (lhs_index C i j k).2 < sa.2
           ∧ (rhs_index C i j k).1 < sb.1 ∧ (rhs_index C i j k).2 < sb.2.
Proof.
  intros Hs Hd.
  destruct (test_gemm_declares N L M dtype layout sa sb Hs Hd)
    as (C & Hrun & HA & HB & Hshape & Hext & Hidx).
  exists (placeholder sa "A" dtype), (placeholder sb "B" dtype), C.
  split; [exact Hrun|]. split; [done|]. split; [done|].
  split; [exact HA|]. split; [exact HB|].
  split; [exact Hshape|]. split; [exact Hext|]. exact Hidx.
Qed.

Lemma getitem_ok (a : ndarray) (i j : nat) :
  i < (np_shape a).1 → j < (np_shape a).2 →
  getitem a (i, j) = Ok (item a i j).
Proof.
  intros Hi Hj. unfold getitem. cbn [fst snd].
  destruct (Nat.ltb_spec i (np_shape a).1); [|lia].
  destruct (Nat.ltb_spec j (np_shape a).2); [|lia]. done.
Qed.

(** The reduction succeeds when its indices stay inside the arrays. *)
Lemma reduce_ok (C : Compute) (a b : ndarray) (i j n : nat) :
  (∀ k, k < n →
     (lhs_index C i j k).1 < (np_shape a).1
     ∧ (lhs_index C i j k).2 < (np_shape a).2
     ∧ (rhs_index C i j k).1 < (np_shape b).1
     ∧ (rhs_index C i j k).2 < (np_shape b).2) →
  reduce C a b i j n
  = Ok (sum32 (λ k, imul (item a (lhs_index C i j k).1 (lhs_index C i j k).2)
                         (item b (rhs_index C i j k).1 (rhs_index C i j k).2))
          n).
Proof.
  intros H. induction n as [|n IH]; [done|].
  cbn [reduce sum32]. rewrite IH by (intros; apply H; lia). rewrite bind_Ok.
  destruct (H n ltac:(lia)) as (H1 & H2 & H3 & H4).
  destruct (lhs_index C i j n) as [p q], (rhs_index C i j n) as [r s].
  by rewrite !getitem_ok.
Qed.

(** X16: under [dtype == 'int8'] and each of the four layouts, the
    reference [c_np] is computed without a shape error, has shape
    [(N, M)], and each of its items is the value the declared computation
    gives the built function for that cell. *)
Theorem reference_agrees (N L M : nat) (layout : string) (sa sb : shape)
    (a_np b_np : ndarray) :
  check_shapes N L M layout = Some (sa, sb) →
  np_shape a_np = sa → np_shape b_np = sb →
  ∃ A B C c,
    (test_gemm N M N L M "int8" layout).2 = Ok (A, B, C)
    ∧ c_np layout a_np b_np = Ok (Some c)
    ∧ np_shape c = (N, M)
    ∧ ∀ i j, i < N → j < M →
        ∃ x, func C a_np b_np i j = Ok x ∧ getitem c (i, j) = Ok x.
Proof.
  intros Hs Ha Hb. apply check_shapes_inv in Hs.
  destruct a_np as [sha ia], b_np as [shb ib]. cbn in Ha, Hb. subst sha shb.
  destruct Hs as [(-> & -> & ->)|[(-> & -> & ->)|[(-> & -> & ->)|(-> & -> & ->)]]].
  all: do 3 eexists; unfold c_np, np_dot, astype_int32;
    cbn [String.eqb Ascii.eqb Bool.eqb np_T np_shape fst snd item];
    rewrite Nat.eqb_refl, bind_Ok; eexists;
    (split; [reflexivity|]); (split; [reflexivity|]); (split; [reflexivity|]);
    intros i j Hi Hj; eexists; (split; [|by apply getitem_ok]);
    unfold func; cbn [lhs rhs t_shape np_shape extent];
    rewrite !bool_decide_eq_true_2 by done; cbn [andb];
    rewrite reduce_ok by (intros k Hk; cbn; lia); reflexivity.
Qed.

(** A sum of products of 8-bit values stays inside 32 bits as long as
    it has fewer than 2^17 terms. *)
Lemma sum32_exact (f g : nat → Z) (n : nat) :
  (∀ k, k < n → f k = g k ∧ (- 2 ^ 14 ≤ g k ≤ 2 ^ 14)%Z) →
  (Z.of_nat n < 2 ^ 17)%Z →
  sum32 f n = bigsum Z.add 0%Z g n
  ∧ (- (Z.of_nat n * 2 ^ 14) ≤ bigsum Z.add 0%Z g n ≤ Z.of_nat n * 2 ^ 14)%Z.
Proof.
  change (2 ^ 14)%Z with 16384%Z. change (2 ^ 17)%Z with 131072%Z.
  intros H Hn. induction n as [|n IH]; [cbn; lia|].
  destruct IH as [IH Hb]; [intros; apply H; lia|lia|].
  destruct (H n ltac:(lia)) as [Hf Hg].
  cbn [sum32 bigsum]. rewrite IH, Hf. split; [|lia].
  apply int32_id. change (2 ^ 31)%Z with 2147483648%Z. lia.
Qed.

(** X17: with 8-bit items and fewer than 2^17 terms the 32-bit
    accumulator never wraps: each cell is the sum of the products as
    integers. *)
Theorem int8_sum_exact (N L M : nat) (layout : string) (sa sb : shape)
    (a_np b_np : ndarray) (A B : Tensor) (C : Compute) :
  check_shapes N L M layout = Some (sa, sb) →
  np_shape a_np = sa → np_shape b_np = sb →
  (test_gemm N M N L M "int8" layout).2 = Ok (A, B, C) →
  (∀ i j, i < sa.1 → j < sa.2 → (-128 ≤ item a_np i j ≤ 127)%Z) →
  (∀ i j, i < sb.1 → j < sb.2 → (-128 ≤ item b_np i j ≤ 127)%Z) →
  (Z.of_nat L < 2 ^ 17)%Z →
  ∀ i j, i < N → j < M →
    func C a_np b_np i j
    = Ok (bigsum Z.add 0%Z
            (λ k, (item a_np (lhs_index C i j k).1 (lhs_index C i j k).2
                   * item b_np (rhs_index C i j k).1 (rhs_index C i j k).2)%Z)
            L).
Proof.
  intros Hs Ha Hb Hrun Hra Hrb HL i j Hi Hj.
  destruct (test_gemm_declares N L M "int8" layout sa sb Hs (or_intror eq_refl))
    as (C' & Hrun' & HA & HB & Hshape & Hext & Hidx).
  rewrite Hrun' in Hrun. cbn in Hrun. injection Hrun as <- <- <-.
  unfold func. rewrite HA, HB. cbn [t_shape].
  rewrite !bool_decide_eq_true_2 by done. cbn [andb]. rewrite Hext.
  rewrite reduce_ok by (intros k Hk; rewrite Ha, Hb; by apply Hidx).
  f_equal. apply sum32_exact; [|done].
  intros k Hk. destruct (Hidx i j k Hi Hj Hk) as (H1 & H2 & H3 & H4).
  pose proof (Hra _ _ H1 H2). pose proof (Hrb _ _ H3 H4).
  change (2 ^ 14)%Z with 16384%Z.
  split; [apply int32_id; change (2 ^ 31)%Z with 2147483648%Z; nia|nia].
Qed.

(** X18: the layout is tested before anything is declared: [test_gemm]
    prints one line and exits with status 1 exactly on the layouts
    other than the four.  [matmul_nn], on any two tensors, returns [None]
    exactly on those other layouts and raises [NameError] exactly when
    the layout is one of the four and the dtype is neither "float16" nor
    "int8", [out_type] being unassigned then.  So where [test_gemm] reads
    [C.op], [C] is never [None]. *)
Theorem layout_and_dtype_dispatch (N0 M0 N L M : nat) (dtype layout : string)
    (A B : Tensor) :
  (test_gemm N0 M0 N L M dtype layout
   = (["Unsupported layout: " +:+ layout], Raise (SystemExit 1))
   ↔ ¬ supported layout)
  ∧ (matmul_nn N0 M0 A B L dtype layout = Ok None ↔ ¬ supported layout)
  ∧ (matmul_nn N0 M0 A B L dtype layout = Raise (NameError "out_type")
     ↔ supported layout ∧ dtype ≠ "float16" ∧ dtype ≠ "int8")
  ∧ (∀ msg, (test_gemm N0 M0 N L M dtype layout).2
            ≠ Raise (AttributeError msg)).
Proof.
  unfold test_gemm, matmul_nn, supported.
  destruct (String.eqb_spec dtype "float16") as [Hf|Hf];
    [|destruct (String.eqb_spec dtype "int8") as [Hi|Hi]];
  (destruct (String.eqb_spec layout "NN") as [Hnn|Hnn];
   [|destruct (String.eqb_spec layout "NT") as [Hnt|Hnt];
     [|destruct (String.eqb_spec layout "TN") as [Htn|Htn];
       [|destruct (String.eqb_spec layout "TT") as [Htt|Htt]]]]);
  cbn; repeat split; intros;
  repeat match goal with
         | H : _ ∧ _ |- _ => destruct H
         end;
  try done; try tauto; eauto.
Qed.

(** Two small arrays for layout "NN" with [N, L, M = 2, 3, 4]. *)
Definition a_small : ndarray := Array (2, 3) (λ i j, Z.of_nat (i + j)).
Definition b_small : ndarray := Array (3, 4) (λ i j, (Z.of_nat (i * j) - 3)%Z).
Definition A_small : Tensor := placeholder (2, 3) "A" "int8".
Definition B_small : Tensor := placeholder (3, 4) "B" "int8".
Definition C_small : Compute :=
  compute (2, 4) A_small B_small (λ i j k, (i, k)) (λ i j k, (k, j)) "int" 3.

Lemma layouts_agree_witness :
  ∃ A B C, test_gemm 2 4 2 3 4 "int8" "NN" = ([], Ok (A, B, C))
    ∧ t_shape A = (2, 3) ∧ t_shape B = (3, 4)
    ∧ lhs C = A ∧ rhs C = B
    ∧ c_shape C = (2, 4) ∧ extent C = 3
    ∧ ∀ i j k, i < 2 → j < 4 → k < 3 →
        (lhs_index C i j k).1 < 2 ∧ (lhs_index C i j k).2 < 3
        ∧ (rhs_index C i j k).1 < 3 ∧ (rhs_index C i j k).2 < 4.
Proof.
  apply (layouts_agree 2 3 4 "int8" "NN" (2, 3) (3, 4)).
  - reflexivity.
  - right. reflexivity.
Defined.

Lemma reference_agrees_witness :
  ∃ A B C c,
    (test_gemm 2 4 2 3 4 "int8" "NN").2 = Ok (A, B, C)
    ∧ c_np "NN" a_small b_small = Ok (Some c)
    ∧ np_shape c = (2, 4)
    ∧ ∀ i j, i < 2 → j < 4 →
        ∃ x, func C a_small b_small i j = Ok x ∧ getitem c (i, j) = Ok x.
Proof.
  apply (reference_agrees 2 3 4 "NN" (2, 3) (3, 4) a_small b_small);
    reflexivity.
Defined.

Lemma int8_sum_exact_witness :
  func C_small a_small b_small 1 3
  = Ok (bigsum Z.add 0%Z
          (λ k, (item a_small (lhs_index C_small 1 3 k).1
                   (lhs_index C_small 1 3 k).2
                 * item b_small (rhs_index C_small 1 3 k).1
                     (rhs_index C_small 1 3 k).2)%Z) 3).
Proof.
  apply (int8_sum_exact 2 3 4 "NN" (2, 3) (3, 4) a_small b_small
           A_small B_small C_small).
  - reflexivity.
  - reflexivity.
  - reflexivity.
  - reflexivity.
  - simpl. lia.
  - simpl. nia.
  - reflexivity.
  - lia.
  - lia.
Defined.

(** Cell (1, 3) of the small product, from the built function and from
    the reference. *)
Example small_cell :
  func C_small a_small b_small 1 3 = Ok 6%Z
  ∧ (c ← c_np "NN" a_small b_small;
     match c with Some c => getitem c (1, 3) | None => Raise IndexError end)
    = Ok 6%Z.
Proof. vm_compute. done. Qed.

(** *** Threads of a block *)

Lemma split_inner (extent factor : nat) : (split extent factor).2 = factor.
Proof. reflexivity. Qed.

Lemma ceil_half_16 (b : nat) : (b * 8 + 15) / 16 = (b + 1) / 2.
Proof.
  pose proof (Nat.div_mod_eq (b + 1) 2) as Hb.
  pose proof (Nat.mod_upper_bound (b + 1) 2 ltac:(lia)) as Hr.
  symmetry. apply (Nat.div_unique _ _ _ (8 * ((b + 1) mod 2) + 7)); lia.
Qed.

Lemma ceil_half_v (b v : nat) :
  0 < v → (b * v + (2 * v - 1)) / (2 * v) = (b + 1) / 2.
Proof.
  intros Hv.
  pose proof (Nat.div_mod_eq (b + 1) 2) as Hb.
  pose proof (Nat.mod_upper_bound (b + 1) 2 ltac:(lia)) as Hr.
  symmetry.
  apply (Nat.div_unique _ _ _ (((b + 1) mod 2 + 1) * v - 1)); nia.
Qed.

(** The thread extents of the C stage. *)
Lemma schedule_C_threads (cfg : Config) (y x : nat) :
  0 < bx cfg →
  threadIdx_y (schedule_C cfg y x) = by_ cfg
  ∧ threadIdx_z (schedule_C cfg y x) = (bx cfg + 1) / 2
  ∧ threadIdx_x (schedule_C cfg y x) = WX cfg / TX.
Proof.
  destruct cfg as [b t s w]. cbn [bx].
  unfold schedule_C, split, WX, tile_x, tile_y, TX, TY, warp_tile_m.
  cbn [bx by_ v threadIdx_y threadIdx_z threadIdx_x]. intros Hb.
  split; [|split].
  - rewrite Nat.mul_1_r. cbn [Nat.sub]. by rewrite Nat.add_0_r, Nat.div_1_r.
  - destruct (decide (b = 1)) as [->|Hne]; [reflexivity|].
    rewrite Nat.min_l by lia. apply ceil_half_16.
  - destruct (decide (b = 1)) as [->|Hne]; [reflexivity|].
    rewrite Nat.min_l by lia. reflexivity.
Qed.

(** The thread extents of the two shared-memory stages. *)
Lemma schedule_shared_threads (cfg : Config) (axis0 axis1 : nat) :
  0 < bx cfg → 0 < v cfg →
  schedule_shared cfg axis0 axis1
  = (by_ cfg, (bx cfg + 1) / 2, WX cfg / TX).
Proof.
  destruct cfg as [b t s w]. cbn [bx v].
  unfold schedule_shared, split, fuse, WX, tile_x, TX, warp_tile_m.
  cbn [bx by_ v]. intros Hb Hw.
  destruct (decide (b = 1)) as [->|Hne].
  - change (Nat.min 16 (1 * 8)) with 8. change (8 / 8) with 1.
    change ((1 + 1) / 2) with 1. f_equal; [f_equal|].
    + symmetry. apply (Nat.div_unique _ _ _ (w - 1)); lia.
    + symmetry. apply (Nat.div_unique _ _ _ (w - 1)); lia.
  - rewrite Nat.min_l by lia. change (16 / 8) with 2. f_equal; [f_equal|].
    + by apply ceil_half_v.
    + symmetry. apply (Nat.div_unique _ _ _ (w - 1)); lia.
Qed.

(** X19: whatever the extents of the axes, the C stage and the two
    shared-memory stages bind the same number of threads to
    [threadIdx.y], [threadIdx.z] and [threadIdx.x]: [by], half of [bx]
    rounded up, and [WX // TX]. *)
Theorem stages_share_threads (cfg : Config) (y x axis0 axis1 : nat) :
  0 < bx cfg → 0 < v cfg →
  schedule_shared cfg axis0 axis1
  = (threadIdx_y (schedule_C cfg y x), threadIdx_z (schedule_C cfg y x),
     threadIdx_x (schedule_C cfg y x))
  ∧ schedule_shared cfg axis0 axis1 = (by_ cfg, (bx cfg + 1) / 2, WX cfg / TX).
Proof.
  intros Hb Hv.
  destruct (schedule_C_threads cfg y x Hb) as (-> & -> & ->).
  split; by apply schedule_shared_threads.
Qed.

(** The best configuration of the sample output. *)
Definition best_config : Config := Knobs 4 32 16 8.

Lemma stages_share_threads_witness :
  0 < bx best_config ∧ 0 < v best_config
  ∧ schedule_shared best_config 32 512
    = (threadIdx_y (schedule_C best_config 32 512),
       threadIdx_z (schedule_C best_config 32 512),
       threadIdx_x (schedule_C best_config 32 512))
  ∧ schedule_shared best_config 32 512
    = (by_ best_config, (bx best_config + 1) / 2, WX best_config / TX).
Proof.
  assert (0 < bx best_config) as Hb by (cbn; lia).
  assert (0 < v best_config) as Hv by (cbn; lia).
  split; [exact Hb|]. split; [exact Hv|].
  exact (stages_share_threads best_config 32 512 32 512 Hb Hv).
Defined.

(** The launch the sample output prints for [N, M, L = 32, 512, 512]:
    one block along y, sixteen along x, threads 32 by 2 by 2, and two
    outer steps of sixteen 16-wide steps along k. *)
Example sample_output_extents :
  schedule_C best_config 32 512 = Bind 1 16 32 2 2
  ∧ schedule_shared best_config 32 512 = (32, 2, 2)
  ∧ schedule_CL best_config 512 = (2, 16, 16).
Proof. vm_compute. done. Qed.

(** X20: every configuration of the search space gives a block of
    [bx * by] threads: between 32 and 512 of them, a whole number of
    warps of 32. *)
Theorem config_space_blocks (cfg : Config) (y x : nat) :
  cfg ∈ config_space →
  threadIdx_y (schedule_C cfg y x) * threadIdx_z (schedule_C cfg y x)
    * threadIdx_x (schedule_C cfg y x) = bx cfg * by_ cfg
  ∧ 32 ≤ bx cfg * by_ cfg ≤ 512
  ∧ (bx cfg * by_ cfg) mod 32 = 0.
Proof.
  intros Hin.
  assert (0 < bx cfg ∧ bx cfg mod 2 = 0 ∧ 2 ≤ bx cfg
          ∧ 32 ≤ bx cfg * by_ cfg ≤ 512 ∧ (bx cfg * by_ cfg) mod 32 = 0)
    as (Hb & Heven & Hb2 & Hrange & Hwarp).
  { revert cfg Hin. apply Forall_forall.
    unfold config_space. cbn. repeat constructor. }
  destruct (schedule_C_threads cfg y x Hb) as (-> & -> & ->).
  split; [|done].
  unfold WX, tile_x, TX, warp_tile_m. rewrite Nat.min_l by lia.
  change (16 / 8) with 2.
  pose proof (Nat.div_mod_eq (bx cfg) 2) as Hdiv.
  replace ((bx cfg + 1) / 2) with (bx cfg / 2); [nia|].
  apply (Nat.div_unique _ _ _ 1); lia.
Qed.

Lemma config_space_blocks_witness :
  best_config ∈ config_space
  ∧ threadIdx_y (schedule_C best_config 32 512)
    * threadIdx_z (schedule_C best_config 32 512)
    * threadIdx_x (schedule_C best_config 32 512)
    = bx best_config * by_ best_config
  ∧ 32 ≤ bx best_config * by_ best_config ≤ 512
  ∧ (bx best_config * by_ best_config) mod 32 = 0.
Proof.
  assert (best_config ∈ config_space) as Hin.
  { unfold config_space, best_config. cbn. repeat constructor. }
  split; [exact Hin|].
  exact (config_space_blocks best_config 32 512 Hin).
Defined.

End TensorCore.
